(** * communicatord flags: a shallow embedding of [flags.cpp]

    The development follows the source file of the [communicatord::flag]
    class: the name validator, the flag value object with its setters, the
    durable record protocol of [save()] and the bulk loader [load_flags()].

    Conventions of the embedding:
    - a [std::string] is a [string] (a list of bytes);
    - [int] and [long]/[time_t] values are [Z] with the wrap-around of the
      conversions written out ([wrap32], [wrap64]);
    - a thrown C++ exception is the [Throw] outcome of the type [except];
    - the process-wide state (the function-local static of
      [get_path_to_flag_files], the file system, the clock, the log) is the
      record [world], threaded by the monad [M];
    - the only unbounded recursion of the file, the one of
      [get_path_to_flag_files], is given fuel: [OutOfFuel] stands for a call
      that has not returned within that many nested calls. *)

From Stdlib Require Import ZArith Lia Ascii String List Bool.
From Stdlib Require Import DecimalString DecimalPos.
From stdpp Require Import base gmap strings list sorting.

Local Open Scope string_scope.
Local Open Scope Z_scope.

(** ** Exceptions *)

Inductive exn : Type :=
  | invalid_name (msg : string)        (* communicatord::invalid_name *)
  | invalid_parameter (msg : string)   (* communicatord::invalid_parameter *)
  | std_invalid_argument               (* thrown by std::stol *)
  | std_out_of_range.                  (* thrown by std::stol *)

Inductive except (A : Type) : Type :=
  | Ok (a : A)
  | Throw (e : exn).
Arguments Ok {A} a.
Arguments Throw {A} e.

Definition is_invalid_name (e : exn) : Prop :=
  match e with invalid_name _ => True | _ => False end.

(** ** Characters *)

Definition code (c : ascii) : N := N_of_ascii c.

Definition is_dash (c : ascii) : bool := (code c =? 45)%N.
Definition is_digit (c : ascii) : bool := ((48 <=? code c) && (code c <=? 57))%N.
Definition is_upper (c : ascii) : bool := ((65 <=? code c) && (code c <=? 90))%N.
Definition is_lower (c : ascii) : bool := ((97 <=? code c) && (code c <=? 122))%N.
Definition is_lower_or_digit (c : ascii) : bool := is_lower c || is_digit c.

(** [c |= 0x20] *)
Definition or_0x20 (c : ascii) : ascii := ascii_of_N (N.lor (code c) 32).

(** ** The name validator: [flag::valid_name]

    The function rewrites [name] in place and throws on the first offending
    byte.  The embedding returns the rewritten string.  The loop carries the
    two locals [first] and [last_char]; it returns the final [last_char]
    together with the rewritten bytes.

    The [default:] branch tests [c < 'a' || c > 'z'] on a [char]: a byte
    above 127 is negative where [char] is signed and above ['z'] where it is
    unsigned, so it is rejected either way; the test is written on the byte
    value. *)

Definition msg_empty := "unit, section, name, tags cannot be empty".
Definition msg_start_dash := "unit, section, name, tags cannot start with a dash (-)".
Definition msg_two_dashes := "unit, section, name, tags cannot have two dashes (--) in a row".
Definition msg_start_digit := "unit, section, name, tags cannot start with a digit (-)".
Definition msg_bad_char := "name cannot include characters other than a-z, 0-9, and dashes (-)".
Definition msg_end_dash := "unit, section, name, tags cannot end with a dash (-)".

Fixpoint valid_name_loop (first : bool) (last_char : ascii) (name : string)
  : except (ascii * string) :=
  match name with
  | EmptyString => Ok (last_char, EmptyString)
  | String c rest =>
      let step (c' : ascii) :=
        match valid_name_loop false c' rest with
        | Ok (lc, rest') => Ok (lc, String c' rest')
        | Throw e => Throw e
        end in
      if is_dash c then
        if first then Throw (invalid_name msg_start_dash)
        else if is_dash last_char then Throw (invalid_name msg_two_dashes)
        else step c
      else if is_digit c then
        if first then Throw (invalid_name msg_start_digit)
        else step c
      else if is_upper c then step (or_0x20 c)
      else if (code c <? 97)%N || (122 <? code c)%N
           then Throw (invalid_name msg_bad_char)
      else step c
  end.

Definition valid_name (name : string) : except string :=
  match name with
  | EmptyString => Throw (invalid_name msg_empty)
  | _ =>
      match valid_name_loop true "000"%char name with
      | Throw e => Throw e
      | Ok (last_char, name') =>
          if is_dash last_char then Throw (invalid_name msg_end_dash)
          else Ok name'
      end
  end.

(** ** Numbers and their decimal text

    [int] is 32 bits and [long] (also [time_t]) is 64 bits on the platforms
    the daemon is built for.  A [long] stored in an [int] field is reduced
    modulo 2^32 ([wrap32]); [long] arithmetic is reduced modulo 2^64
    ([wrap64]). *)

Definition INT_MIN : Z := - 2 ^ 31.
Definition INT_MAX : Z := 2 ^ 31 - 1.
Definition LONG_MIN : Z := - 2 ^ 63.
Definition LONG_MAX : Z := 2 ^ 63 - 1.

Definition wrap (bits : Z) (z : Z) : Z :=
  (z + 2 ^ (bits - 1)) mod 2 ^ bits - 2 ^ (bits - 1).
Definition wrap32 : Z -> Z := wrap 32.
Definition wrap64 : Z -> Z := wrap 64.

(** [std::to_string] of an [int] or a [long]. *)
Definition to_string (z : Z) : string := NilZero.string_of_int (Z.to_int z).

(** [std::stol(s)], base 10: leading white space is skipped, an optional sign
    is read, then the longest run of digits; whatever follows is ignored.
    Without a digit [std::invalid_argument] is thrown, and
    [std::out_of_range] when the value does not fit a [long]. *)
Definition is_space (c : ascii) : bool :=
  ((code c =? 32) || ((9 <=? code c) && (code c <=? 13)))%N.

Fixpoint skip_space (s : string) : string :=
  match s with
  | String c r => if is_space c then skip_space r else s
  | EmptyString => EmptyString
  end.

Fixpoint digits_value (acc : Z) (s : string) : Z :=
  match s with
  | String c r =>
      if is_digit c then digits_value (10 * acc + (Z.of_N (code c) - 48)) r
      else acc
  | EmptyString => acc
  end.

Definition starts_with_digit (s : string) : bool :=
  match s with
  | String c _ => is_digit c
  | EmptyString => false
  end.

Definition stol (s : string) : except Z :=
  let s1 := skip_space s in
  let '(negative, s2) :=
    match s1 with
    | String c r =>
        if is_dash c then (true, r)
        else if (code c =? 43)%N then (false, r)
        else (false, s1)
    | EmptyString => (false, s1)
    end in
  if starts_with_digit s2 then
    let v := digits_value 0 s2 in
    let r := if negative then - v else v in
    if (LONG_MIN <=? r) && (r <=? LONG_MAX) then Ok r
    else Throw std_out_of_range
  else Throw std_invalid_argument.

(** ** Strings: [snapdev::join_strings] and [snapdev::tokenize_string] *)

Definition string_empty (s : string) : bool :=
  match s with EmptyString => true | _ => false end.

Fixpoint in_chars (c : ascii) (set : string) : bool :=
  match set with
  | EmptyString => false
  | String d r => Ascii.eqb c d || in_chars c r
  end.

Fixpoint join_strings (tokens : list string) (sep : string) : string :=
  match tokens with
  | [] => EmptyString
  | [t] => t
  | t :: ts => t ++ sep ++ join_strings ts sep
  end.

(** The pieces of [s] between the bytes of [delimiters]; never an empty
    list. *)
Fixpoint split_tokens (delimiters : string) (s : string) : list string :=
  match s with
  | EmptyString => [EmptyString]
  | String c r =>
      if in_chars c delimiters then EmptyString :: split_tokens delimiters r
      else match split_tokens delimiters r with
           | t :: ts => String c t :: ts
           | [] => [String c EmptyString]
           end
  end.

Fixpoint trim_left (trim_string : string) (s : string) : string :=
  match s with
  | String c r => if in_chars c trim_string then trim_left trim_string r else s
  | EmptyString => EmptyString
  end.

Fixpoint trim_right (trim_string : string) (s : string) : string :=
  match s with
  | EmptyString => EmptyString
  | String c r =>
      let r' := trim_right trim_string r in
      if string_empty r' && in_chars c trim_string then EmptyString
      else String c r'
  end.

Definition tokenize_string (str delimiters : string) (trim_empty : bool)
    (trim_string : string) : list string :=
  filter (fun t => negb (string_empty t) || negb trim_empty = true)
         (map (fun t => trim_right trim_string (trim_left trim_string t))
              (split_tokens delimiters str)).

(** A [std::set<std::string>] is a [gset string]; the program iterates it
    in ascending byte order. *)
Definition string_le (a b : string) : Prop := String.leb a b = true.

#[global] Instance string_le_dec : RelDecision string_le.
Proof. intros a b. unfold string_le. apply _. Defined.

Definition set_in_order (s : gset string) : list string :=
  merge_sort string_le (elements s).

(** ** The flag object *)

Inductive state_t : Type := STATE_UP | STATE_DOWN.

Record flag : Type := mk_flag {
  f_state : state_t;
  f_unit : string;
  f_section : string;
  f_name : string;
  f_filename : string;            (* declared [mutable] *)
  f_source_file : string;
  f_function : string;
  f_line : Z;                     (* int *)
  f_message : string;
  f_priority : Z;                 (* int *)
  f_manual_down : bool;
  f_date : Z;                     (* time_t *)
  f_modified : Z;                 (* time_t *)
  f_tags : gset string;           (* std::set<std::string> *)
  f_hostname : string;
  f_count : Z;                    (* int *)
  f_version : string
}.

(** Modelled from the spec: the member initialisers of the class, which are
    in the header [flags.h] (state UP, priority 5, count 0, line 0, manual
    down off, no tag, empty strings, date and modified unset, written -1). *)
Definition default_flag : flag :=
  mk_flag STATE_UP "" "" "" "" "" "" 0 "" 5 false (-1) (-1) ∅ "" 0 "".

(** Modelled from the spec: the ceiling of [load_flags], a constant of the
    header [flags.h]. *)
Definition FLAGS_LIMIT : nat := 100.

Definition with_state (v : state_t) (f : flag) : flag :=
  mk_flag v (f_unit f) (f_section f) (f_name f) (f_filename f)
    (f_source_file f) (f_function f) (f_line f) (f_message f) (f_priority f)
    (f_manual_down f) (f_date f) (f_modified f) (f_tags f) (f_hostname f)
    (f_count f) (f_version f).
Definition with_unit (v : string) (f : flag) : flag :=
  mk_flag (f_state f) v (f_section f) (f_name f) (f_filename f)
    (f_source_file f) (f_function f) (f_line f) (f_message f) (f_priority f)
    (f_manual_down f) (f_date f) (f_modified f) (f_tags f) (f_hostname f)
    (f_count f) (f_version f).
Definition with_section (v : string) (f : flag) : flag :=
  mk_flag (f_state f) (f_unit f) v (f_name f) (f_filename f)
    (f_source_file f) (f_function f) (f_line f) (f_message f) (f_priority f)
    (f_manual_down f) (f_date f) (f_modified f) (f_tags f) (f_hostname f)
    (f_count f) (f_version f).
Definition with_name (v : string) (f : flag) : flag :=
  mk_flag (f_state f) (f_unit f) (f_section f) v (f_filename f)
    (f_source_file f) (f_function f) (f_line f) (f_message f) (f_priority f)
    (f_manual_down f) (f_date f) (f_modified f) (f_tags f) (f_hostname f)
    (f_count f) (f_version f).
Definition with_filename (v : string) (f : flag) : flag :=
  mk_flag (f_state f) (f_unit f) (f_section f) (f_name f) v
    (f_source_file f) (f_function f) (f_line f) (f_message f) (f_priority f)
    (f_manual_down f) (f_date f) (f_modified f) (f_tags f) (f_hostname f)
    (f_count f) (f_version f).
Definition with_source_file (v : string) (f : flag) : flag :=
  mk_flag (f_state f) (f_unit f) (f_section f) (f_name f) (f_filename f)
    v (f_function f) (f_line f) (f_message f) (f_priority f)
    (f_manual_down f) (f_date f) (f_modified f) (f_tags f) (f_hostname f)
    (f_count f) (f_version f).
Definition with_function (v : string) (f : flag) : flag :=
  mk_flag (f_state f) (f_unit f) (f_section f) (f_name f) (f_filename f)
    (f_source_file f) v (f_line f) (f_message f) (f_priority f)
    (f_manual_down f) (f_date f) (f_modified f) (f_tags f) (f_hostname f)
    (f_count f) (f_version f).
Definition with_line (v : Z) (f : flag) : flag :=
  mk_flag (f_state f) (f_unit f) (f_section f) (f_name f) (f_filename f)
    (f_source_file f) (f_function f) v (f_message f) (f_priority f)
    (f_manual_down f) (f_date f) (f_modified f) (f_tags f) (f_hostname f)
    (f_count f) (f_version f).
Definition with_message (v : string) (f : flag) : flag :=
  mk_flag (f_state f) (f_unit f) (f_section f) (f_name f) (f_filename f)
    (f_source_file f) (f_function f) (f_line f) v (f_priority f)
    (f_manual_down f) (f_date f) (f_modified f) (f_tags f) (f_hostname f)
    (f_count f) (f_version f).
Definition with_priority (v : Z) (f : flag) : flag :=
  mk_flag (f_state f) (f_unit f) (f_section f) (f_name f) (f_filename f)
    (f_source_file f) (f_function f) (f_line f) (f_message f) v
    (f_manual_down f) (f_date f) (f_modified f) (f_tags f) (f_hostname f)
    (f_count f) (f_version f).
Definition with_manual_down (v : bool) (f : flag) : flag :=
  mk_flag (f_state f) (f_unit f) (f_section f) (f_name f) (f_filename f)
    (f_source_file f) (f_function f) (f_line f) (f_message f) (f_priority f)
    v (f_date f) (f_modified f) (f_tags f) (f_hostname f)
    (f_count f) (f_version f).
Definition with_date (v : Z) (f : flag) : flag :=
  mk_flag (f_state f) (f_unit f) (f_section f) (f_name f) (f_filename f)
    (f_source_file f) (f_function f) (f_line f) (f_message f) (f_priority f)
    (f_manual_down f) v (f_modified f) (f_tags f) (f_hostname f)
    (f_count f) (f_version f).
Definition with_modified (v : Z) (f : flag) : flag :=
  mk_flag (f_state f) (f_unit f) (f_section f) (f_name f) (f_filename f)
    (f_source_file f) (f_function f) (f_line f) (f_message f) (f_priority f)
    (f_manual_down f) (f_date f) v (f_tags f) (f_hostname f)
    (f_count f) (f_version f).
Definition with_tags (v : gset string) (f : flag) : flag :=
  mk_flag (f_state f) (f_unit f) (f_section f) (f_name f) (f_filename f)
    (f_source_file f) (f_function f) (f_line f) (f_message f) (f_priority f)
    (f_manual_down f) (f_date f) (f_modified f) v (f_hostname f)
    (f_count f) (f_version f).
Definition with_hostname (v : string) (f : flag) : flag :=
  mk_flag (f_state f) (f_unit f) (f_section f) (f_name f) (f_filename f)
    (f_source_file f) (f_function f) (f_line f) (f_message f) (f_priority f)
    (f_manual_down f) (f_date f) (f_modified f) (f_tags f) v
    (f_count f) (f_version f).
Definition with_count (v : Z) (f : flag) : flag :=
  mk_flag (f_state f) (f_unit f) (f_section f) (f_name f) (f_filename f)
    (f_source_file f) (f_function f) (f_line f) (f_message f) (f_priority f)
    (f_manual_down f) (f_date f) (f_modified f) (f_tags f) (f_hostname f)
    v (f_version f).
Definition with_version (v : string) (f : flag) : flag :=
  mk_flag (f_state f) (f_unit f) (f_section f) (f_name f) (f_filename f)
    (f_source_file f) (f_function f) (f_line f) (f_message f) (f_priority f)
    (f_manual_down f) (f_date f) (f_modified f) (f_tags f) (f_hostname f)
    (f_count f) v.

(** *** [flag::flag(unit, section, name)] *)
Definition flag_new (unit section name : string) : except flag :=
  match valid_name unit with
  | Throw e => Throw e
  | Ok u =>
      match valid_name section with
      | Throw e => Throw e
      | Ok s =>
          match valid_name name with
          | Throw e => Throw e
          | Ok n => Ok (with_name n (with_section s (with_unit u default_flag)))
          end
      end
  end.

(** *** The setters *)
Definition set_state (state : state_t) (f : flag) : flag := with_state state f.
Definition set_source_file (source_file : string) (f : flag) : flag :=
  with_source_file source_file f.
Definition set_function (function : string) (f : flag) : flag :=
  with_function function f.
Definition set_line (line : Z) (f : flag) : flag := with_line line f.
Definition set_message (message : string) (f : flag) : flag :=
  with_message message f.

Definition set_priority (priority : Z) (f : flag) : flag :=
  if priority <? 0 then with_priority 0 f
  else if 100 <? priority then with_priority 100 f
  else with_priority priority f.

Definition set_manual_down (manual : bool) (f : flag) : flag :=
  with_manual_down manual f.

(** [f_tags.insert(tag)]: the body of [add_tag] has no other statement. *)
Definition add_tag (tag : string) (f : flag) : flag :=
  with_tags ({[ tag ]} ∪ f_tags f) f.

(** *** The getters *)
Definition get_state (f : flag) : state_t := f_state f.
Definition get_unit (f : flag) : string := f_unit f.
Definition get_section (f : flag) : string := f_section f.
Definition get_name (f : flag) : string := f_name f.
Definition get_source_file (f : flag) : string := f_source_file f.
Definition get_function (f : flag) : string := f_function f.
Definition get_line (f : flag) : Z := f_line f.
Definition get_message (f : flag) : string := f_message f.
Definition get_priority (f : flag) : Z := f_priority f.
Definition get_manual_down (f : flag) : bool := f_manual_down f.
Definition get_date (f : flag) : Z := f_date f.
Definition get_modified (f : flag) : Z := f_modified f.
Definition get_tags (f : flag) : gset string := f_tags f.
Definition get_hostname (f : flag) : string := f_hostname f.
Definition get_count (f : flag) : Z := f_count f.
Definition get_version (f : flag) : string := f_version f.

(** ** The process and its environment

    [g_path_to_flag_files] is the function-local static of
    [get_path_to_flag_files]; it is empty when the process starts.  The
    other fields are the collaborators of the file: the file system (each
    regular file is seen through [advgetopt::conf_file] as its
    [name=value] parameters), the paths on which writing or unlinking is
    refused by the system, [errno], the clock read by [time(nullptr)], the
    host name returned by [snapdev::gethostname()], the version string
    [COMMUNICATORD_VERSION_STRING], the values of [__FILE__] and [__LINE__]
    where [load_flags] expands its macro, and the log of the diagnostics
    sent with [SNAP_LOG_ERROR]. *)

Abbreviation conf := (gmap string string) (only parsing).

Record world : Type := mk_world {
  g_path_to_flag_files : string;
  directories : gset string;
  files : gmap string conf;
  refused : gset string;
  errno : Z;
  clock : Z;
  hostname : string;
  version_string : string;
  source_position : string * Z;
  log : list string
}.

Definition initial_world (dirs : gset string) (fs : gmap string conf)
    (denied : gset string) (now : Z) (host version : string)
    (pos : string * Z) : world :=
  mk_world "" dirs fs denied 0 now host version pos [].

Definition with_path (v : string) (w : world) : world :=
  mk_world v (directories w) (files w) (refused w) (errno w) (clock w)
    (hostname w) (version_string w) (source_position w) (log w).
Definition with_files (v : gmap string conf) (w : world) : world :=
  mk_world (g_path_to_flag_files w) (directories w) v (refused w) (errno w)
    (clock w) (hostname w) (version_string w) (source_position w) (log w).
Definition with_errno (v : Z) (w : world) : world :=
  mk_world (g_path_to_flag_files w) (directories w) (files w) (refused w) v
    (clock w) (hostname w) (version_string w) (source_position w) (log w).
Definition with_clock (v : Z) (w : world) : world :=
  mk_world (g_path_to_flag_files w) (directories w) (files w) (refused w)
    (errno w) v (hostname w) (version_string w) (source_position w) (log w).
Definition with_log (v : list string) (w : world) : world :=
  mk_world (g_path_to_flag_files w) (directories w) (files w) (refused w)
    (errno w) (clock w) (hostname w) (version_string w) (source_position w) v.

(** ** The monad of the embedding: fuel, state and exceptions *)

Inductive outcome (A : Type) : Type :=
  | Ret (a : A) (w : world)
  | Raise (e : exn) (w : world)
  | OutOfFuel.
Arguments Ret {A} a w.
Arguments Raise {A} e w.
Arguments OutOfFuel {A}.

Definition M (A : Type) : Type := nat -> world -> outcome A.

Definition ret {A : Type} (a : A) : M A := fun _ w => Ret a w.
Definition throw {A : Type} (e : exn) : M A := fun _ w => Raise e w.
Definition bind {A B : Type} (m : M A) (k : A -> M B) : M B :=
  fun fuel w =>
    match m fuel w with
    | Ret a w' => k a fuel w'
    | Raise e w' => Raise e w'
    | OutOfFuel => OutOfFuel
    end.
Definition lift {A : Type} (r : except A) : M A :=
  match r with
  | Ok a => ret a
  | Throw e => throw e
  end.
Definition gets {A : Type} (proj : world -> A) : M A := fun _ w => Ret (proj w) w.
Definition modify (upd : world -> world) : M unit := fun _ w => Ret tt (upd w).

Notation "x <- m ;; k" := (bind m (fun x => k))
  (at level 20, m at level 99, k at level 200, only parsing).
Notation "' p <- m ;; k" := (bind m (fun x => let 'p := x in k))
  (at level 20, p pattern, m at level 99, k at level 200, only parsing).

(** ** System calls and library objects used by the file *)

Definition ENOENT : Z := 2.
Definition EACCES : Z := 13.

(** [stat(path, &s) == 0] and [S_ISDIR(s.st_mode)]. *)
Definition stat_ok (path : string) (w : world) : bool :=
  bool_decide (path ∈ directories w) || bool_decide (is_Some (files w !! path)).
Definition stat_is_dir (path : string) (w : world) : bool :=
  bool_decide (path ∈ directories w).

(** [unlink(filename)]: 0 on success, -1 with [errno] set otherwise. *)
Definition unlink (filename : string) : M Z :=
  fun _ w =>
    match files w !! filename with
    | None => Ret (-1) (with_errno ENOENT w)
    | Some _ =>
        if bool_decide (filename ∈ refused w)
        then Ret (-1) (with_errno EACCES w)
        else Ret 0 (with_files (delete filename (files w)) w)
    end.

Definition time : M Z := gets clock.
Definition gethostname : M string := gets hostname.
Definition SNAP_LOG_ERROR (message : string) : M unit :=
  modify (fun w => with_log (log w ++ [message])%list w).

(** *** [advgetopt::conf_file]

    The object returned by [get_conf_file] holds the parameters read from
    the file when there is one; [save_configuration(".bak", true)] keeps the
    previous content under the backup name and replaces the file by the
    parameters of the object. *)
Record conf_file : Type := mk_conf_file {
  cf_filename : string;
  cf_exists : bool;
  cf_parameters : gmap string string
}.

Definition conf_file_of (w : world) (filename : string) : conf_file :=
  match files w !! filename with
  | Some ps => mk_conf_file filename true ps
  | None => mk_conf_file filename false ∅
  end.

Definition get_conf_file (filename : string) : M conf_file :=
  gets (fun w => conf_file_of w filename).

Definition exists_ (file : conf_file) : bool := cf_exists file.
Definition has_parameter (file : conf_file) (name : string) : bool :=
  bool_decide (is_Some (cf_parameters file !! name)).
Definition get_parameter (file : conf_file) (name : string) : string :=
  default "" (cf_parameters file !! name).
Definition set_parameter (name value : string) (file : conf_file) : conf_file :=
  mk_conf_file (cf_filename file) (cf_exists file)
    (<[name := value]> (cf_parameters file)).

Definition save_configuration (file : conf_file) (backup_extension : string)
    (replace_backup : bool) : M bool :=
  fun _ w =>
    let fn := cf_filename file in
    if bool_decide (fn ∈ refused w) then Ret false w
    else
      let kept :=
        match files w !! fn with
        | Some old =>
            if replace_backup || negb (bool_decide (is_Some (files w !! (fn ++ backup_extension))))
            then <[fn ++ backup_extension := old]> (files w)
            else files w
        | None => files w
        end in
      Ret true (with_files (<[fn := cf_parameters file]> kept) w).

(** *** [snapdev::glob_to_list::read_path]

    The pattern is matched as [glob(3)] does without escapes: [*] and [?]
    stay inside one path component and do not match the period that starts
    a component; bracket expressions are not modelled.  The names come in
    ascending order; no match gives the empty list (GLOB_FLAG_EMPTY). *)
Definition is_slash (c : ascii) : bool := (code c =? 47)%N.
Definition is_period (c : ascii) : bool := (code c =? 46)%N.

Fixpoint glob_match (pattern : string) (at_start : bool) (s : string) : bool :=
  match pattern with
  | EmptyString => string_empty s
  | String p pattern' =>
      if (code p =? 42)%N then
        match s with
        | String c _ => negb (at_start && is_period c)
        | EmptyString => true
        end &&
        (fix star (s : string) : bool :=
           glob_match pattern' false s ||
           match s with
           | String c s' => negb (is_slash c) && star s'
           | EmptyString => false
           end) s
      else
        match s with
        | String c s' =>
            (if (code p =? 63)%N
             then negb (is_slash c) && negb (at_start && is_period c)
             else Ascii.eqb p c)
            && glob_match pattern' (is_slash c) s'
        | EmptyString => false
        end
  end.

Definition read_path (pattern : string) : M (list string) :=
  gets (fun w =>
    filter (fun name => glob_match pattern true name = true)
      (set_in_order (dom (files w) ∪ directories w))).

(** ** The path of the flag files *)

Definition dquote : string := String "034"%char EmptyString.

(** [get_path_to_flag_files_internal()]: reads the [path] parameter of
    [/etc/communicatord/flags.conf]. *)
Definition get_path_to_flag_files_internal : M string :=
  server_config <- get_conf_file "/etc/communicatord/flags.conf" ;;
  if has_parameter server_config "path"
  then ret (get_parameter server_config "path")
  else ret "/var/lib/communicatord/flags".

(** The body of [get_path_to_flag_files()]; [self] is the function itself,
    which the body calls on its first line when the static is empty. *)
Definition get_path_to_flag_files_body (self : M string) : M string :=
  cached <- gets g_path_to_flag_files ;;
  if string_empty cached then
    path <- self ;;
    found <- gets (stat_ok path) ;;
    is_dir <- gets (stat_is_dir path) ;;
    _ <- (if negb found then
            SNAP_LOG_ERROR ("could not find the flags directory " ++ dquote
              ++ path ++ dquote
              ++ "; did you start communicatord yet? (it creates it if not yet present)")
          else if negb is_dir then
            SNAP_LOG_ERROR ("could not create the flags directory " ++ dquote
              ++ path ++ dquote
              ++ "; did you make your service part of the flags group?")
          else modify (with_path path)) ;;
    gets g_path_to_flag_files
  else gets g_path_to_flag_files.

(** [get_path_to_flag_files()].  The fuel bounds the depth of the nested
    calls of the function to itself. *)
Fixpoint get_path_to_flag_files (fuel : nat) : world -> outcome string :=
  get_path_to_flag_files_body
    (fun _ w =>
       match fuel with
       | O => OutOfFuel
       | S fuel' => get_path_to_flag_files fuel' w
       end)
    fuel.

(** ** [flag::get_filename()] *)

(** The name of the record of a flag in the directory [path]. *)
Definition flag_path (path : string) (this : flag) : string :=
  path ++ "/" ++ f_unit this ++ "_" ++ f_section this ++ "_" ++ f_name this ++ ".flag".

Definition get_filename (this : flag) : M (string * flag) :=
  if string_empty (f_filename this) then
    path <- get_path_to_flag_files ;;
    let this := with_filename path this in
    let this :=
      if negb (string_empty (f_filename this))
      then with_filename (f_filename this ++ "/" ++ f_unit this ++ "_"
                            ++ f_section this ++ "_" ++ f_name this ++ ".flag") this
      else this in
    ret (f_filename this, this)
  else ret (f_filename this, this).

(** ** [flag::flag(filename)] *)

Definition msg_no_filename :=
  "the filename must be defined (i.e. not empty) when using the flag constructor with a filename".
Definition msg_missing_field :=
  "a flag file is expected to include a unit, section, and name field, along with a message field. Other fields are optional.".

(** [if(file->has_parameter(name)) { field = conv(file->get_parameter(name)); }] *)
Definition load_field {A : Type} (file : conf_file) (name : string)
    (conv : string -> except A) (store : A -> flag -> flag) (this : flag) : M flag :=
  if has_parameter file name then
    v <- lift (conv (get_parameter file name)) ;;
    ret (store v this)
  else ret this.

Definition stol_int (s : string) : except Z :=
  match stol s with
  | Ok n => Ok (wrap32 n)
  | Throw e => Throw e
  end.

Definition flag_from_file (filename : string) : M flag :=
  let this := with_filename filename default_flag in
  if string_empty (f_filename this) then throw (invalid_parameter msg_no_filename)
  else
    '(fn, this) <- get_filename this ;;
    file <- get_conf_file fn ;;
    if negb (has_parameter file "unit")
       || negb (has_parameter file "section")
       || negb (has_parameter file "name")
       || negb (has_parameter file "message")
    then throw (invalid_parameter msg_missing_field)
    else
      let this := with_unit (get_parameter file "unit") this in
      let this := with_section (get_parameter file "section") this in
      let this := with_name (get_parameter file "name") this in
      this <- load_field file "source_file" Ok with_source_file this ;;
      this <- load_field file "function" Ok with_function this ;;
      this <- load_field file "line" stol_int with_line this ;;
      let this := with_message (get_parameter file "message") this in
      this <- load_field file "priority" stol_int with_priority this ;;
      this <- load_field file "manual_down"
                (fun s => Ok (String.eqb s "yes")) with_manual_down this ;;
      this <- load_field file "date" stol with_date this ;;
      this <- load_field file "modified" stol with_modified this ;;
      this <- load_field file "tags"
                (fun tags => Ok (tokenize_string tags "," true
                                   (String " " (String "010" (String "013" (String "009" ""))))%char))
                (fun tag_list this => with_tags (list_to_set tag_list ∪ f_tags this) this)
                this ;;
      this <- load_field file "hostname" Ok with_hostname this ;;
      this <- load_field file "count" stol_int with_count this ;;
      this <- load_field file "version" Ok with_version this ;;
      ret this.

(** ** [flag::save()] *)
Definition save (this : flag) : M (bool * flag) :=
  '(filename, this) <- get_filename this ;;
  if string_empty filename then ret (false, this)
  else
    match f_state this with
    | STATE_UP =>
        file <- get_conf_file filename ;;
        let exists' := exists_ file in
        let has_date := exists' && has_parameter file "date" in
        let has_count := exists' && has_parameter file "count" in
        t <- time ;;
        let now := to_string t in
        let file := set_parameter "unit" (f_unit this) file in
        let file := set_parameter "section" (f_section this) file in
        let file := set_parameter "name" (f_name this) file in
        let file := set_parameter "source_file" (f_source_file this) file in
        let file := set_parameter "function" (f_function this) file in
        let file := set_parameter "line" (to_string (f_line this)) file in
        let file := set_parameter "message" (f_message this) file in
        let file := set_parameter "priority" (to_string (f_priority this)) file in
        let file := set_parameter "manual_down"
                      (if f_manual_down this then "yes" else "no") file in
        let file := if negb has_date then set_parameter "date" now file else file in
        let file := set_parameter "modified" now file in
        let file := set_parameter "tags"
                      (join_strings (set_in_order (f_tags this)) ",") file in
        host <- gethostname ;;
        let file := set_parameter "hostname" host file in
        version <- gets version_string ;;
        let file := set_parameter "version" version file in
        file <- (if has_count then
                   n <- lift (stol (get_parameter file "count")) ;;
                   ret (set_parameter "count" (to_string (wrap64 (n + 1))) file)
                 else ret (set_parameter "count" "1" file)) ;;
        result <- save_configuration file ".bak" true ;;
        ret (result, this)
    | STATE_DOWN =>
        r <- unlink filename ;;
        e <- gets errno ;;
        let result := r =? 0 in
        let result := if negb result && (e =? ENOENT) then true else result in
        ret (result, this)
    end.

(** ** [flag::load_flags()] *)

(** Modelled from the spec: the macro [COMMUNICATORD_FLAG_UP] of the header
    [flags.h], which creates a flag with the three-name constructor and
    initialises its message, source file, function and line; the state is
    the one of a new flag, UP.  The macro yields a shared pointer; the
    embedding yields the object. *)
Definition COMMUNICATORD_FLAG_UP (func unit section name message : string)
  : M flag :=
  this <- lift (flag_new unit section name) ;;
  pos <- gets source_position ;;
  ret (set_line (snd pos)
         (set_function func
            (set_source_file (fst pos)
               (set_message message this)))).

Fixpoint load_flags_loop (path : string) (flag_filenames : list string)
    (result : list flag) : M (list flag) :=
  match flag_filenames with
  | [] => ret result
  | filename :: rest =>
      if (FLAGS_LIMIT <=? length result)%nat then
        flag' <- COMMUNICATORD_FLAG_UP "load_flags"
                  "communicatord" "flag" "too-many-flags"
                  ("too many flags were raised, showing only the first 100,"
                   ++ " others can be viewed on this system at " ++ dquote
                   ++ path ++ dquote) ;;
        let flag' := set_priority 97 flag' in
        let flag' := add_tag "flag" flag' in
        let flag' := add_tag "too-many" flag' in
        ret (result ++ [flag'])%list
      else
        loaded <- flag_from_file filename ;;
        load_flags_loop path rest (result ++ [loaded])%list
  end.

Definition load_flags : M (list flag) :=
  path <- get_path_to_flag_files ;;
  if string_empty path then ret []
  else
    flag_filenames <- read_path (path ++ "/*.flag") ;;
    load_flags_loop path flag_filenames [].

(** ** The name grammar as the specification words it

    The grammar [^[a-z][a-z0-9]*(-[a-z0-9]+)*$] is written as a regular
    expression over classes of bytes, with the usual matching relation. *)

Inductive regex : Type :=
  | Class (p : ascii -> bool)
  | Cat (r1 r2 : regex)
  | Star (r : regex).

Definition Plus (r : regex) : regex := Cat r (Star r).

Inductive matches : regex -> string -> Prop :=
  | matches_class p c : p c = true -> matches (Class p) (String c EmptyString)
  | matches_cat r1 r2 s1 s2 :
      matches r1 s1 -> matches r2 s2 -> matches (Cat r1 r2) (s1 ++ s2)
  | matches_star_nil r : matches (Star r) EmptyString
  | matches_star_app r s1 s2 :
      matches r s1 -> matches (Star r) s2 -> matches (Star r) (s1 ++ s2).

Definition dash_group : regex := Cat (Class is_dash) (Plus (Class is_lower_or_digit)).
Definition name_tail : regex := Cat (Star (Class is_lower_or_digit)) (Star dash_group).
Definition name_regex : regex := Cat (Class is_lower) name_tail.

(** What is left to match after a byte that was, or was not, a dash. *)
Definition tail_shape (after_dash : bool) (s : string) : Prop :=
  if after_dash
  then exists g r, s = g ++ r /\ matches (Plus (Class is_lower_or_digit)) g
                   /\ matches (Star dash_group) r
  else matches name_tail s.

(** The loop, past the first byte, goes through [s] without changing it and
    does not end on a dash. *)
Definition goes_through (last_char : ascii) (s : string) : Prop :=
  exists lc, valid_name_loop false last_char s = Ok (lc, s) /\ is_dash lc = false.

Definition lowercase_char (c : ascii) : ascii :=
  if is_upper c then or_0x20 c else c.

Fixpoint lowercase (s : string) : string :=
  match s with
  | EmptyString => EmptyString
  | String c r => String (lowercase_char c) (lowercase r)
  end.



(** ** Sequences of setter calls *)

Inductive setter_call : Type :=
  | call_set_state (state : state_t)
  | call_set_source_file (source_file : string)
  | call_set_function (function : string)
  | call_set_line (line : Z)
  | call_set_message (message : string)
  | call_set_priority (priority : Z)
  | call_set_manual_down (manual : bool)
  | call_add_tag (tag : string).

Definition run_setter (c : setter_call) (f : flag) : flag :=
  match c with
  | call_set_state state => set_state state f
  | call_set_source_file source_file => set_source_file source_file f
  | call_set_function function => set_function function f
  | call_set_line line => set_line line f
  | call_set_message message => set_message message f
  | call_set_priority priority => set_priority priority f
  | call_set_manual_down manual => set_manual_down manual f
  | call_add_tag tag => add_tag tag f
  end.

Definition run_setters (cs : list setter_call) (f : flag) : flag :=
  fold_left (fun f c => run_setter c f) cs f.

Definition priority_in_range (f : flag) : Prop := 0 <= get_priority f <= 100.

(** The text of a field in the record stored under [filename], if any. *)
Definition stored_field (w : world) (filename field : string) : option string :=
  match files w !! filename with
  | Some ps => ps !! field
  | None => None
  end.

(** The flag that [load_flags] appends when the ceiling is reached, for
    the directory [path] and the source position [pos] of the macro. *)
Definition too_many_flags (path : string) (pos : string * Z) : flag :=
  mk_flag STATE_UP "communicatord" "flag" "too-many-flags" ""
    (fst pos) "load_flags" (snd pos)
    ("too many flags were raised, showing only the first 100,"
     ++ " others can be viewed on this system at " ++ dquote ++ path ++ dquote)
    97 false (-1) (-1) ({[ "too-many" ]} ∪ ({[ "flag" ]} ∪ ∅)) "" 0 "".

(** A flag file loads: the constructor returns a flag and leaves the
    process as it is. *)
Definition loads (fuel : nat) (w : world) (filename : string) (f : flag) : Prop :=
  flag_from_file filename fuel w = Ret f w.

(** ** Sample processes and records

    Concrete inputs on which the functions are run: a process whose static
    already holds the directory ["/flags"], and records as [save] lays them
    out. *)

Definition sample_world (fs : gmap string conf) : world :=
  mk_world "/flags" {[ "/flags" ]} fs ∅ 0 1700000000 "host1" "1.0.5"
    ("flags.cpp", 1041) [].

Definition sample_record (unit section name message : string)
    (more : list (string * string)) : conf :=
  list_to_map ([("unit", unit); ("section", section); ("name", name);
                ("message", message)] ++ more)%list.

Definition sample_flag : flag :=
  with_message "clamav not installed"
    (with_name "clamav-missing"
       (with_section "attachment" (with_unit "core-plugins" default_flag))).

Definition sample_flag_file : string :=
  "/flags/core-plugins_attachment_clamav-missing.flag".

Definition record_with_priority_250 : gmap string conf :=
  {[ "/flags/a_b_c.flag" := sample_record "a" "b" "c" "m" [("priority", "250")] ]}.

(** ** Derived views used in the statements *)

(** The parameters that [save] writes over those of the existing record. *)
Definition written_parameters (this : flag) (w : world) (old : gmap string string)
  : gmap string string :=
  let now := to_string (clock w) in
  let ps := <["unit" := f_unit this]> old in
  let ps := <["section" := f_section this]> ps in
  let ps := <["name" := f_name this]> ps in
  let ps := <["source_file" := f_source_file this]> ps in
  let ps := <["function" := f_function this]> ps in
  let ps := <["line" := to_string (f_line this)]> ps in
  let ps := <["message" := f_message this]> ps in
  let ps := <["priority" := to_string (f_priority this)]> ps in
  let ps := <["manual_down" := if f_manual_down this then "yes" else "no"]> ps in
  let ps := match old !! "date" with
            | Some _ => ps
            | None => <["date" := now]> ps
            end in
  let ps := <["modified" := now]> ps in
  let ps := <["tags" := join_strings (set_in_order (f_tags this)) ","]> ps in
  let ps := <["hostname" := hostname w]> ps in
  let ps := <["version" := version_string w]> ps in
  <["count" := match old !! "count" with
               | Some text =>
                   match stol text with
                   | Ok n => to_string (wrap64 (n + 1))
                   | Throw _ => "1"
                   end
               | None => "1"
               end]> ps.

Definition record_a_b_c : gmap string conf :=
  {[ "/flags/a_b_c.flag" := sample_record "a" "b" "c" "m" [] ]}.

(** The decimal text of a natural number, for the names of sample files. *)
Definition nat_text (n : nat) : string := to_string (Z.of_nat n).

Definition numbered_file (i : nat) : string * conf :=
  ("/flags/u_s_n" ++ nat_text (1000 + i) ++ ".flag",
   sample_record "u" "s" ("n" ++ nat_text (1000 + i)) "raised" []).

(** [n] well-formed records in ["/flags"]. *)
Definition numbered_records (n : nat) : gmap string conf :=
  list_to_map (map numbered_file (seq 0 n)).

(** The flag that the constructor makes of the [i]-th numbered record. *)
Definition numbered_flag (i : nat) : flag :=
  mk_flag STATE_UP "u" "s" ("n" ++ nat_text (1000 + i)) (fst (numbered_file i))
    "" "" 0 "raised" 5 false (-1) (-1) ∅ "" 0 "".

(** A record without message next to a well-formed one. *)
Definition one_bad_record : gmap string conf :=
  {[ "/flags/a_b_bad.flag" := {[ "unit" := "a"; "section" := "b"; "name" := "bad" ]};
     "/flags/a_b_good.flag" := sample_record "a" "b" "good" "raised" [] ]}.

(** The value of a run of decimal digits read after the prefix [acc], as
    [digits_value] computes it on their text. *)
Fixpoint uint_value (acc : Z) (d : Decimal.uint) : Z :=
  match d with
  | Decimal.Nil => acc
  | Decimal.D0 d => uint_value (10 * acc + 0) d
  | Decimal.D1 d => uint_value (10 * acc + 1) d
  | Decimal.D2 d => uint_value (10 * acc + 2) d
  | Decimal.D3 d => uint_value (10 * acc + 3) d
  | Decimal.D4 d => uint_value (10 * acc + 4) d
  | Decimal.D5 d => uint_value (10 * acc + 5) d
  | Decimal.D6 d => uint_value (10 * acc + 6) d
  | Decimal.D7 d => uint_value (10 * acc + 7) d
  | Decimal.D8 d => uint_value (10 * acc + 8) d
  | Decimal.D9 d => uint_value (10 * acc + 9) d
  end.

(** Tags that go through [join_strings] and [tokenize_string] unharmed:
    not empty, without comma, and with no white space at either end. *)
Definition tag_white_space : string :=
  (String " " (String "010" (String "013" (String "009" ""))))%char.

Fixpoint all_chars (p : ascii -> bool) (s : string) : bool :=
  match s with
  | EmptyString => true
  | String c r => p c && all_chars p r
  end.

Fixpoint ends_without (set : string) (s : string) : bool :=
  match s with
  | EmptyString => false
  | String c EmptyString => negb (in_chars c set)
  | String c r => ends_without set r
  end.

Definition starts_without (set : string) (s : string) : bool :=
  match s with
  | EmptyString => false
  | String c _ => negb (in_chars c set)
  end.

(** A byte of an accepted name. *)
Definition name_byte (c : ascii) : bool := is_lower_or_digit c || is_dash c.

Definition clean_tag (t : string) : Prop :=
  all_chars (fun c => negb (in_chars c ",")) t = true
  /\ starts_without tag_white_space t = true
  /\ ends_without tag_white_space t = true.

(** ** The message cache: [cache.cpp]

    A message of the eventdispatcher library ([ed::message]) is seen
    through its command and its named parameters, which is all the cache
    reads of it.  The cache is the list [f_message_cache] of the class
    [cache]; each entry holds a message and the time after which it is
    dropped. *)

Module Cache.

Record message : Type := mk_message {
  msg_command : string;
  msg_parameters : gmap string string
}.

Definition msg_has_parameter (msg : message) (name : string) : bool :=
  bool_decide (is_Some (msg_parameters msg !! name)).
Definition msg_get_parameter (msg : message) (name : string) : string :=
  default "" (msg_parameters msg !! name).

Record message_cache : Type := mk_message_cache {
  f_timeout_timestamp : Z;        (* time_t *)
  f_message : message
}.

(** The log keeps the text of a diagnostic, not its severity. *)
Definition SNAP_LOG_NOTICE (text : string) : M unit :=
  modify (fun w => with_log (log w ++ [text])%list w).
Definition SNAP_LOG_UNIMPORTANT (text : string) : M unit :=
  modify (fun w => with_log (log w ++ [text])%list w).

(** [p.find(c)]: the position of the first [c], [None] for [npos]. *)
Fixpoint string_find (c : ascii) (p : string) : option nat :=
  match p with
  | EmptyString => None
  | String d r =>
      if Ascii.eqb d c then Some O
      else match string_find c r with
           | Some pos => Some (S pos)
           | None => None
           end
  end.

(** [p.substr(0, pos)] and [p.substr(pos)], for [pos] up to the length. *)
Fixpoint string_take (pos : nat) (p : string) : string :=
  match pos, p with
  | S pos', String c r => String c (string_take pos' r)
  | _, _ => EmptyString
  end.

Fixpoint string_drop (pos : nat) (p : string) : string :=
  match pos, p with
  | S pos', String _ r => string_drop pos' r
  | _, _ => p
  end.

(** One turn of the loop of [cache_message] over the pieces of the
    [cache] parameter. *)
Definition cache_parameter (p : string) (params : gmap string string)
  : M (gmap string string) :=
  match string_find "=" p with
  | None => ret (<[p := "true"]> params)
  | Some O =>
      _ <- SNAP_LOG_NOTICE ("invalid cache parameter " ++ dquote ++ p ++ dquote
             ++ "; expected " ++ dquote ++ "<name>[=<value>]" ++ dquote ++ "; "
             ++ dquote ++ "<name>" ++ dquote
             ++ " is missing, it cannot be empty.") ;;
      ret params
  | Some pos => ret (<[string_take pos p := string_drop (pos + 1) p]> params)
  end.

Fixpoint cache_parameters_loop (cache_parameters : list string)
    (params : gmap string string) : M (gmap string string) :=
  match cache_parameters with
  | [] => ret params
  | p :: rest =>
      params <- cache_parameter p params ;;
      cache_parameters_loop rest params
  end.

(** The time to live chosen by [cache_message].  [convert_string] is
    [advgetopt::validator_integer::convert_string], which is not part of
    the repository: it gives the 64-bit value of a text, or fails.  The
    range test reads the local [ttl], which holds 60 at that point. *)
Definition cache_ttl (convert_string : string -> option Z)
    (params : gmap string string) : M Z :=
  let ttl := 60 in
  match params !! "ttl" with
  | Some text =>
      match convert_string text with
      | None =>
          _ <- SNAP_LOG_ERROR ("cache TTL parameter is not a valid integer ("
                 ++ text ++ ").") ;;
          ret ttl
      | Some value =>
          if (ttl <? 10) || (86400 <? ttl) then
            _ <- SNAP_LOG_UNIMPORTANT ("cache TTL is out of range (" ++ text
                   ++ "); expected a number between 10 and 86400.") ;;
            ret ttl
          else ret value
      end
  | None => ret ttl
  end.

(** [cache::cache_message(msg)] *)
Definition cache_message (convert_string : string -> option Z) (msg : message)
    (f_message_cache : list message_cache) : M (list message_cache) :=
  let cache_value :=
    if msg_has_parameter msg "cache" then msg_get_parameter msg "cache"
    else "" in
  if String.eqb cache_value "no" then ret f_message_cache
  else
    let cache_parameters := tokenize_string cache_value ";" true "" in
    params <- cache_parameters_loop cache_parameters ∅ ;;
    ttl <- cache_ttl convert_string params ;;
    now <- time ;;
    let cache_message := mk_message_cache (wrap64 (now + ttl)) msg in
    ret (f_message_cache ++ [cache_message])%list.

(** [cache::remove_old_messages()] *)
Fixpoint remove_old_loop (now : Z) (f_message_cache : list message_cache)
  : list message_cache :=
  match f_message_cache with
  | [] => []
  | it :: rest =>
      if f_timeout_timestamp it <? now then remove_old_loop now rest
      else it :: remove_old_loop now rest
  end.

Definition remove_old_messages (f_message_cache : list message_cache)
  : M (list message_cache) :=
  now <- time ;;
  ret (remove_old_loop now f_message_cache).

(** [cache::process_messages(callback)].  The callback receives the
    message by reference and may change it; it may also have a state of its
    own, of type [S].  It is called on every entry, in order, before the
    time of the entry is looked at. *)
Fixpoint process_loop {S : Type} (callback : message -> S -> bool * message * S)
    (now : Z) (f_message_cache : list message_cache) (s : S)
  : list message_cache * S :=
  match f_message_cache with
  | [] => ([], s)
  | it :: rest =>
      let '(done, msg, s1) := callback (f_message it) s in
      let it' := mk_message_cache (f_timeout_timestamp it) msg in
      let '(rest', s2) := process_loop callback now rest s1 in
      if done || (f_timeout_timestamp it <? now) then (rest', s2)
      else (it' :: rest', s2)
  end.

Definition process_messages {S : Type}
    (callback : message -> S -> bool * message * S)
    (f_message_cache : list message_cache) (s : S)
  : M (list message_cache * S) :=
  now <- time ;;
  ret (process_loop callback now f_message_cache s).

End Cache.

(** ** Runs of several operations *)


(** The fields of a record that the constructor reads with [std::stol]. *)
Definition numeric_fields : list string :=
  ["line"; "priority"; "date"; "modified"; "count"].

(** What the constructor makes of an optional field read with [std::stol]:
    the value read, reduced by [narrow] to the type of the member, or the
    initial value of the member. *)
Definition loaded_number (stored : option string) (narrow : Z -> Z)
    (initial : Z) (got : Z) : Prop :=
  match stored with
  | Some text => exists n, stol text = Ok n /\ got = narrow n
  | None => got = initial
  end.

(** The parameters that [save] sets in a record. *)
Definition record_keys : list string :=
  ["unit"; "section"; "name"; "source_file"; "function"; "line"; "message";
   "priority"; "manual_down"; "date"; "modified"; "tags"; "hostname";
   "version"; "count"].

(** The process after [save] has written the record of [this'] under
    [fn]: the previous content, if any, is kept under the backup name. *)
Definition after_write (this' : flag) (w : world) (fn : string) : world :=
  with_files
    (<[fn := written_parameters this' w (default ∅ (files w !! fn))]>
       (match files w !! fn with
        | Some old => <[fn ++ ".bak" := old]> (files w)
        | None => files w
        end)) w.

(** [save], called once at each of the given times. *)
Fixpoint save_at_times (this : flag) (times : list Z) : M flag :=
  match times with
  | [] => ret this
  | t :: rest =>
      _ <- modify (with_clock t) ;;
      '(_, this) <- save this ;;
      save_at_times this rest
  end.

(** [w'] is the process [w] with lines added to its log and nothing else
    changed. *)
Definition logged (w w' : world) : Prop :=
  exists lines, w' = with_log (log w ++ lines)%list w.


(** * Properties *)

(** ** Bytes *)

Ltac by_cases_on_byte c :=
  destruct c as [[] [] [] [] [] [] [] []]; vm_compute; intros; congruence.

Lemma upper_folds_to_lower (c : ascii) :
  is_upper c = true -> is_lower (or_0x20 c) = true.
Proof. by_cases_on_byte c. Qed.

Lemma upper_folds_to_no_dash (c : ascii) :
  is_upper c = true -> is_dash (or_0x20 c) = false.
Proof. by_cases_on_byte c. Qed.

Lemma dash_not_upper (c : ascii) : is_dash c = true -> is_upper c = false.
Proof. by_cases_on_byte c. Qed.

Lemma digit_not_upper (c : ascii) : is_digit c = true -> is_upper c = false.
Proof. by_cases_on_byte c. Qed.

Lemma digit_not_dash (c : ascii) : is_digit c = true -> is_dash c = false.
Proof. by_cases_on_byte c. Qed.

Lemma lower_not_dash (c : ascii) : is_lower c = true -> is_dash c = false.
Proof. by_cases_on_byte c. Qed.

Lemma in_range_is_lower (c : ascii) :
  ((code c <? 97)%N || (122 <? code c)%N) = false -> is_lower c = true.
Proof. by_cases_on_byte c. Qed.


Lemma dash_is_the_dash (c : ascii) : is_dash c = true -> c = "-"%char.
Proof. by_cases_on_byte c. Qed.

(** ** The name validator *)

Lemma valid_name_loop_cons first last_char c rest :
  valid_name_loop first last_char (String c rest) =
  let step (c' : ascii) :=
    match valid_name_loop false c' rest with
    | Ok (lc, rest') => Ok (lc, String c' rest')
    | Throw e => Throw e
    end in
  if is_dash c then
    if first then Throw (invalid_name msg_start_dash)
    else if is_dash last_char then Throw (invalid_name msg_two_dashes)
    else step c
  else if is_digit c then
    if first then Throw (invalid_name msg_start_digit)
    else step c
  else if is_upper c then step (or_0x20 c)
  else if (code c <? 97)%N || (122 <? code c)%N
       then Throw (invalid_name msg_bad_char)
  else step c.
Proof. reflexivity. Qed.

(** Splits the goal along the tests of one turn of the loop. *)
Ltac loop_turn c :=
  rewrite valid_name_loop_cons; cbv zeta;
  destruct (is_dash c) eqn:Hdash;
  [ | destruct (is_digit c) eqn:Hdigit;
      [ | destruct (is_upper c) eqn:Hupper;
          [ | destruct ((code c <? 97)%N || (122 <? code c)%N) eqn:Hrange ] ] ].

Lemma valid_name_loop_throws name :
  forall first last_char e,
    valid_name_loop first last_char name = Throw e -> is_invalid_name e.
Proof.
  induction name as [|c rest IH]; intros first last_char e; [discriminate|].
  loop_turn c; repeat match goal with
    | |- context [if ?b then _ else _] => destruct b
    end;
    try (intros [= <-]; exact I);
    match goal with
    | |- context [valid_name_loop false ?x rest] =>
        specialize (IH false x);
        destruct (valid_name_loop false x rest) as [[lc out]|e'];
        [discriminate | intros [= <-]; exact (IH e' eq_refl)]
    end.
Qed.

Lemma valid_name_loop_lowercase name :
  forall first last_char lc out,
    valid_name_loop first last_char name = Ok (lc, out) -> out = lowercase name.
Proof.
  induction name as [|c rest IH]; intros first last_char lc out.
  - intros [= _ <-]. reflexivity.
  - cbn [lowercase]. unfold lowercase_char.
    loop_turn c; repeat match goal with
      | |- context [if ?b then _ else _ ] =>
          lazymatch b with
          | is_upper _ => fail
          | _ => destruct b
          end
      end; try discriminate;
      try rewrite (dash_not_upper c Hdash);
      try rewrite (digit_not_upper c Hdigit);
      try rewrite Hupper;
      match goal with
      | |- context [valid_name_loop false ?x rest] =>
          specialize (IH false x);
          destruct (valid_name_loop false x rest) as [[lc' out']|e'];
          [intros [= _ <-]; f_equal; exact (IH lc' out' eq_refl) | discriminate]
      end.
Qed.

Lemma matches_star_one (p : ascii -> bool) (c : ascii) (s : string) :
  p c = true -> matches (Star (Class p)) s -> matches (Star (Class p)) (String c s).
Proof.
  intros Hc Hs.
  change (String c s) with (String c EmptyString ++ s).
  apply matches_star_app; [apply matches_class; exact Hc | exact Hs].
Qed.

Lemma name_tail_inv (s : string) :
  matches name_tail s ->
  exists w r, s = w ++ r /\ matches (Star (Class is_lower_or_digit)) w
              /\ matches (Star dash_group) r.
Proof.
  unfold name_tail. intros H. inversion H; subst. eauto.
Qed.

(** After a lower-case letter or a digit, the rest of an accepted name has
    the shape the grammar asks for. *)
Lemma tail_shape_after_plain (p : bool) (c : ascii) (s : string) :
  is_lower_or_digit c = true ->
  tail_shape false s -> tail_shape p (String c s).
Proof.
  intros Hc Hs. apply name_tail_inv in Hs as (w & r & -> & Hw & Hr).
  destruct p; cbn [tail_shape].
  - exists (String c w), r. split; [reflexivity|]. split; [|exact Hr].
    change (String c w) with (String c EmptyString ++ w).
    apply matches_cat; [apply matches_class; exact Hc | exact Hw].
  - change (String c (w ++ r)) with (String c w ++ r).
    apply matches_cat; [apply matches_star_one; assumption | exact Hr].
Qed.

Lemma tail_shape_after_dash (c : ascii) (s : string) :
  is_dash c = true -> tail_shape true s -> tail_shape false (String c s).
Proof.
  intros Hc (g & r & -> & Hg & Hr). cbn [tail_shape].
  change (String c (g ++ r)) with (EmptyString ++ (String c g ++ r)).
  apply matches_cat; [apply matches_star_nil|].
  apply matches_star_app; [|exact Hr].
  change (String c g) with (String c EmptyString ++ g).
  apply matches_cat; [apply matches_class; exact Hc | exact Hg].
Qed.

Lemma valid_name_loop_shape name :
  forall last_char lc out,
    valid_name_loop false last_char name = Ok (lc, out) ->
    is_dash lc = false ->
    tail_shape (is_dash last_char) out.
Proof.
  induction name as [|c rest IH]; intros last_char lc out.
  - intros [= <- <-] ->. cbn [tail_shape].
    change EmptyString with (EmptyString ++ EmptyString).
    apply matches_cat; apply matches_star_nil.
  - loop_turn c.
    + destruct (is_dash last_char) eqn:Hlast; [discriminate|].
      destruct (valid_name_loop false c rest) as [[lc' out']|e'] eqn:Hrec;
        [|discriminate].
      intros [= <- <-] Hlc.
      apply tail_shape_after_dash; [exact Hdash|].
      specialize (IH c lc' out' Hrec Hlc). rewrite Hdash in IH. exact IH.
    + destruct (valid_name_loop false c rest) as [[lc' out']|e'] eqn:Hrec;
        [|discriminate].
      intros [= <- <-] Hlc.
      apply tail_shape_after_plain.
      * unfold is_lower_or_digit. rewrite Hdigit. apply orb_true_r.
      * specialize (IH c lc' out' Hrec Hlc). rewrite Hdash in IH. exact IH.
    + destruct (valid_name_loop false (or_0x20 c) rest) as [[lc' out']|e'] eqn:Hrec;
        [|discriminate].
      intros [= <- <-] Hlc.
      apply tail_shape_after_plain.
      * unfold is_lower_or_digit. rewrite (upper_folds_to_lower c Hupper). reflexivity.
      * specialize (IH _ lc' out' Hrec Hlc).
        rewrite (upper_folds_to_no_dash c Hupper) in IH. exact IH.
    + discriminate.
    + destruct (valid_name_loop false c rest) as [[lc' out']|e'] eqn:Hrec;
        [|discriminate].
      intros [= <- <-] Hlc.
      apply tail_shape_after_plain.
      * unfold is_lower_or_digit. rewrite (in_range_is_lower c Hrange). reflexivity.
      * specialize (IH c lc' out' Hrec Hlc). rewrite Hdash in IH. exact IH.
Qed.



Lemma append_nil_l (s : string) : EmptyString ++ s = s.
Proof. reflexivity. Qed.

Lemma append_cons (c : ascii) (a b : string) : String c a ++ b = String c (a ++ b).
Proof. reflexivity. Qed.

Ltac norm_append := repeat (rewrite append_cons || rewrite append_nil_l).

Lemma valid_name_of_loop_throw (name : string) (e : exn) :
  valid_name_loop true "000"%char name = Throw e ->
  exists msg, valid_name name = Throw (invalid_name msg).
Proof.
  intros H. destruct name as [|c rest]; [discriminate|].
  unfold valid_name. rewrite H.
  apply valid_name_loop_throws in H. destruct e; try contradiction. eauto.
Qed.

Lemma valid_name_accepts_or_rejects (name : string) :
  (exists msg, valid_name name = Throw (invalid_name msg))
  \/ (valid_name name = Ok (lowercase name)
      /\ matches name_regex (lowercase name)).
Proof.
  destruct (valid_name_loop true "000"%char name) as [[lc out]|e] eqn:Hloop;
    [|left; eapply valid_name_of_loop_throw; exact Hloop].
  destruct name as [|c rest]; [left; unfold valid_name; eauto|].
  unfold valid_name. rewrite Hloop.
  destruct (is_dash lc) eqn:Hlc; [left; eauto|right].
  pose proof (valid_name_loop_lowercase _ _ _ _ _ Hloop) as Hout.
  split; [congruence|]. rewrite <- Hout.
  assert (Hfirst : forall c', is_lower c' = true ->
            forall out', valid_name_loop false c' rest = Ok (lc, out') ->
            matches name_regex (String c' out')).
  { intros c' Hc' out' Hrec.
    change (String c' out') with (String c' EmptyString ++ out').
    apply matches_cat; [apply matches_class; exact Hc'|].
    pose proof (valid_name_loop_shape _ _ _ _ Hrec Hlc) as Hshape.
    rewrite (lower_not_dash c' Hc') in Hshape. exact Hshape. }
  revert Hloop. loop_turn c; try discriminate.
  - destruct (valid_name_loop false (or_0x20 c) rest) as [[lc' out']|e'] eqn:Hrec;
      [|discriminate].
    intros [= -> <-]. apply Hfirst; [apply upper_folds_to_lower; exact Hupper|exact Hrec].
  - destruct (valid_name_loop false c rest) as [[lc' out']|e'] eqn:Hrec;
      [|discriminate].
    intros [= -> <-]. apply Hfirst; [apply in_range_is_lower; exact Hrange|exact Hrec].
Qed.






(** *** Every name of the grammar is accepted as it is *)

Lemma append_assoc (a b c : string) : (a ++ b) ++ c = a ++ (b ++ c).
Proof.
  induction a as [|x a IH]; norm_append; [reflexivity|]. rewrite IH. reflexivity.
Qed.

Lemma lower_or_digit_cases (c : ascii) :
  is_lower_or_digit c = true ->
  is_dash c = false /\ is_upper c = false
  /\ (is_digit c = true
      \/ (is_digit c = false /\ ((code c <? 97)%N || (122 <? code c)%N) = false)).
Proof.
  destruct c as [[] [] [] [] [] [] [] []]; vm_compute; intros; try congruence;
    repeat split; auto.
Qed.

Lemma goes_through_plain (last_char c : ascii) (s : string) :
  is_lower_or_digit c = true ->
  goes_through c s -> goes_through last_char (String c s).
Proof.
  intros Hc (lc & Hloop & Hlc). exists lc. split; [|exact Hlc].
  rewrite valid_name_loop_cons; cbv zeta.
  destruct (lower_or_digit_cases c Hc) as (-> & Hup & [-> | [-> Hrange]]).
  - rewrite Hloop. reflexivity.
  - rewrite Hup, Hrange, Hloop. reflexivity.
Qed.

Lemma goes_through_dash (last_char c : ascii) (s : string) :
  is_dash c = true -> is_dash last_char = false ->
  goes_through c s -> goes_through last_char (String c s).
Proof.
  intros Hc Hlast (lc & Hloop & Hlc). exists lc. split; [|exact Hlc].
  rewrite valid_name_loop_cons; cbv zeta. rewrite Hc, Hlast, Hloop. reflexivity.
Qed.

Lemma goes_through_nil (last_char : ascii) :
  is_dash last_char = false -> goes_through last_char EmptyString.
Proof. intros H. exists last_char. split; [reflexivity|exact H]. Qed.

Lemma lower_or_digit_not_dash (c : ascii) :
  is_lower_or_digit c = true -> is_dash c = false.
Proof. intros H. apply (lower_or_digit_cases c H). Qed.

Lemma goes_through_run (w : string) :
  matches (Star (Class is_lower_or_digit)) w ->
  forall r,
    (forall last_char, is_dash last_char = false -> goes_through last_char r) ->
    forall last_char, is_dash last_char = false -> goes_through last_char (w ++ r).
Proof.
  intros H. remember (Star (Class is_lower_or_digit)) as re eqn:Hre.
  induction H as [p0 c0 Hc0|ra rb sa sb Ha IHa Hb IHb|re0|re' s1 s2 H1 _ H2 IH2];
    try discriminate.
  - intros r Hr last_char Hlast. apply Hr. exact Hlast.
  - injection Hre as ->. specialize (IH2 eq_refl).
    inversion H1 as [p c Hc| | |]; subst.
    intros r Hr last_char Hlast. rewrite append_assoc. norm_append.
    apply goes_through_plain; [exact Hc|].
    apply IH2; [exact Hr|]. apply lower_or_digit_not_dash. exact Hc.
Qed.

Lemma goes_through_groups (r : string) :
  matches (Star dash_group) r ->
  forall last_char, is_dash last_char = false -> goes_through last_char r.
Proof.
  intros H. remember (Star dash_group) as re eqn:Hre.
  induction H as [p0 c0 Hc0|ra rb sa sb Ha IHa Hb IHb|re0|re' s1 s2 H1 _ H2 IH2];
    try discriminate.
  - intros last_char Hlast. apply goes_through_nil. exact Hlast.
  - injection Hre as ->. specialize (IH2 eq_refl).
    unfold dash_group, Plus in H1.
    inversion H1 as [|? ? d g Hd Hg| |]; subst.
    inversion Hd as [p c Hc| | |]; subst.
    inversion Hg as [|? ? a w Ha Hw| |]; subst.
    inversion Ha as [p x Hx| | |]; subst.
    intros last_char Hlast. rewrite !append_assoc. norm_append.
    apply goes_through_dash; [exact Hc|exact Hlast|].
    apply goes_through_plain; [exact Hx|].
    apply goes_through_run; [exact Hw|exact IH2|].
    apply lower_or_digit_not_dash. exact Hx.
Qed.

Lemma lower_cases (c : ascii) :
  is_lower c = true ->
  is_dash c = false /\ is_digit c = false /\ is_upper c = false
  /\ ((code c <? 97)%N || (122 <? code c)%N) = false.
Proof.
  destruct c as [[] [] [] [] [] [] [] []]; vm_compute; intros; try congruence;
    repeat split.
Qed.

Lemma grammar_accepted (name : string) :
  matches name_regex name -> valid_name name = Ok name.
Proof.
  unfold name_regex. intros H.
  inversion H as [|? ? s1 s2 H1 H2| |]; subst.
  inversion H1 as [p c Hc| | |]; subst.
  apply name_tail_inv in H2 as (w & r & -> & Hw & Hr). norm_append.
  destruct (lower_cases c Hc) as (Hdash & Hdigit & Hupper & Hrange).
  destruct (goes_through_run w Hw r (goes_through_groups r Hr) c Hdash)
    as (lc & Hloop & Hlc).
  unfold valid_name. rewrite valid_name_loop_cons; cbv zeta.
  rewrite Hdash, Hdigit, Hupper, Hrange, Hloop, Hlc. reflexivity.
Qed.



(** ** The monad *)

Lemma bind_ret_inv {A B : Type} (m : M A) (k : A -> M B) fuel w b w' :
  bind m k fuel w = Ret b w' ->
  exists a w1, m fuel w = Ret a w1 /\ k a fuel w1 = Ret b w'.
Proof.
  unfold bind. destruct (m fuel w) as [a w1| |]; try discriminate. eauto.
Qed.

Lemma bind_of_ret {A B : Type} (m : M A) (k : A -> M B) fuel w a w1 :
  m fuel w = Ret a w1 -> bind m k fuel w = k a fuel w1.
Proof. unfold bind. intros ->. reflexivity. Qed.


Lemma bind_of_out_of_fuel {A B : Type} (m : M A) (k : A -> M B) fuel w :
  m fuel w = OutOfFuel -> bind m k fuel w = OutOfFuel.
Proof. unfold bind. intros ->. reflexivity. Qed.

Lemma string_empty_true (s : string) : string_empty s = true <-> s = "".
Proof. destruct s; cbn; split; congruence. Qed.

Lemma string_empty_false (s : string) : string_empty s = false <-> s <> "".
Proof. destruct s; cbn; split; congruence. Qed.

(** ** The path of the flag files *)

Lemma get_path_to_flag_files_unfold fuel w :
  get_path_to_flag_files fuel w =
  get_path_to_flag_files_body
    (fun _ w => match fuel with
                | O => OutOfFuel
                | S fuel' => get_path_to_flag_files fuel' w
                end) fuel w.
Proof. destruct fuel; reflexivity. Qed.

(** With an empty static the function calls itself before anything else,
    whatever the fuel. *)
Lemma get_path_to_flag_files_empty fuel :
  forall w, g_path_to_flag_files w = "" ->
            get_path_to_flag_files fuel w = OutOfFuel.
Proof.
  induction fuel as [|fuel IH]; intros w Hw;
    rewrite get_path_to_flag_files_unfold;
    unfold get_path_to_flag_files_body, bind, gets; rewrite Hw; cbn.
  - reflexivity.
  - rewrite (IH w Hw). reflexivity.
Qed.

(** Once the static holds a path, the function returns it at once. *)
Lemma get_path_to_flag_files_cached fuel w :
  g_path_to_flag_files w <> "" ->
  get_path_to_flag_files fuel w = Ret (g_path_to_flag_files w) w.
Proof.
  intros Hw. rewrite get_path_to_flag_files_unfold.
  unfold get_path_to_flag_files_body, bind, gets.
  apply string_empty_false in Hw. rewrite Hw. reflexivity.
Qed.

Lemma get_path_to_flag_files_ret fuel w path w' :
  get_path_to_flag_files fuel w = Ret path w' ->
  w' = w /\ path = g_path_to_flag_files w /\ path <> "".
Proof.
  intros H. destruct (string_dec (g_path_to_flag_files w) "") as [E|E].
  - rewrite (get_path_to_flag_files_empty fuel w E) in H. discriminate.
  - rewrite (get_path_to_flag_files_cached fuel w E) in H.
    injection H as <- <-. auto.
Qed.

Lemma get_path_to_flag_files_no_raise fuel w e w' :
  get_path_to_flag_files fuel w <> Raise e w'.
Proof.
  destruct (string_dec (g_path_to_flag_files w) "") as [E|E].
  - rewrite (get_path_to_flag_files_empty fuel w E). discriminate.
  - rewrite (get_path_to_flag_files_cached fuel w E). discriminate.
Qed.

(** ** [get_filename] *)

Lemma get_filename_memoized this fuel w :
  f_filename this <> "" ->
  get_filename this fuel w = Ret (f_filename this, this) w.
Proof.
  intros H. unfold get_filename.
  apply string_empty_false in H. rewrite H. reflexivity.
Qed.

Lemma get_filename_fresh this fuel w :
  f_filename this = "" -> g_path_to_flag_files w <> "" ->
  get_filename this fuel w
  = Ret (flag_path (g_path_to_flag_files w) this,
         with_filename (flag_path (g_path_to_flag_files w) this) this) w.
Proof.
  intros H Hw. unfold get_filename. rewrite H. cbn [string_empty].
  rewrite (bind_of_ret _ _ _ _ _ _ (get_path_to_flag_files_cached fuel w Hw)).
  cbn [f_filename with_filename].
  apply string_empty_false in Hw. rewrite Hw. reflexivity.
Qed.

Lemma get_filename_unresolved this fuel w :
  f_filename this = "" -> g_path_to_flag_files w = "" ->
  get_filename this fuel w = OutOfFuel.
Proof.
  intros H Hw. unfold get_filename. rewrite H. cbn [string_empty].
  apply bind_of_out_of_fuel. apply get_path_to_flag_files_empty. exact Hw.
Qed.

(** What a returning [get_filename] has done: nothing to the process, and
    to the object nothing but the memoization of the name. *)
Lemma get_filename_ret this fuel w fn this' w' :
  get_filename this fuel w = Ret (fn, this') w' ->
  w' = w /\ fn <> "" /\ this' = with_filename fn this
  /\ (f_filename this <> "" -> fn = f_filename this /\ this' = this).
Proof.
  intros H. destruct (string_dec (f_filename this) "") as [E|E].
  - destruct (string_dec (g_path_to_flag_files w) "") as [Ew|Ew].
    + rewrite (get_filename_unresolved this fuel w E Ew) in H. discriminate.
    + rewrite (get_filename_fresh this fuel w E Ew) in H.
      injection H as <- <- <-. repeat split; try congruence.
      unfold flag_path. destruct (g_path_to_flag_files w); [contradiction|discriminate].
  - rewrite (get_filename_memoized this fuel w E) in H.
    injection H as <- <- <-. repeat split; try assumption.
    destruct this; reflexivity.
Qed.

Lemma get_filename_no_raise this fuel w e w' :
  get_filename this fuel w <> Raise e w'.
Proof.
  unfold get_filename. destruct (string_empty (f_filename this)); [|discriminate].
  unfold bind.
  destruct (get_path_to_flag_files fuel w) as [p w1|e1 w1|] eqn:E; try discriminate.
  exfalso. exact (get_path_to_flag_files_no_raise _ _ _ _ E).
Qed.

(** ** The setters *)

Lemma set_priority_clamps (p : Z) (f : flag) :
  get_priority (set_priority p f) = Z.max 0 (Z.min 100 p).
Proof.
  unfold set_priority, get_priority.
  destruct (p <? 0) eqn:Hneg; [cbn; lia|].
  destruct (100 <? p) eqn:Hbig; cbn; lia.
Qed.

Lemma run_setter_priority (c : setter_call) (f : flag) :
  priority_in_range f -> priority_in_range (run_setter c f).
Proof.
  unfold priority_in_range. intros H.
  destruct c; try exact H.
  cbn [run_setter]. rewrite set_priority_clamps. lia.
Qed.

Lemma run_setters_priority (cs : list setter_call) :
  forall f, priority_in_range f -> priority_in_range (run_setters cs f).
Proof.
  unfold run_setters.
  induction cs as [|c cs IH]; intros f H; [exact H|].
  cbn [fold_left]. apply IH. apply run_setter_priority. exact H.
Qed.

Lemma flag_new_fields unit section name f :
  flag_new unit section name = Ok f ->
  valid_name unit = Ok (f_unit f) /\ valid_name section = Ok (f_section f)
  /\ valid_name name = Ok (f_name f)
  /\ f = with_name (f_name f) (with_section (f_section f)
           (with_unit (f_unit f) default_flag)).
Proof.
  unfold flag_new.
  destruct (valid_name unit) as [u|]; [|discriminate].
  destruct (valid_name section) as [s|]; [|discriminate].
  destruct (valid_name name) as [n|]; [|discriminate].
  intros [= <-]. repeat split.
Qed.

(** ** The file-loading constructor *)

Lemma load_field_inv {A : Type} file name (conv : string -> except A) store
    this fuel w this' w' :
  load_field file name conv store this fuel w = Ret this' w' ->
  w' = w
  /\ ((has_parameter file name = false /\ this' = this)
      \/ (exists v, has_parameter file name = true
                    /\ conv (get_parameter file name) = Ok v
                    /\ this' = store v this)).
Proof.
  unfold load_field. destruct (has_parameter file name).
  - unfold bind, lift. destruct (conv (get_parameter file name)) as [v|e];
      cbn; [|discriminate].
    intros [= <- <-]. split; [reflexivity|]. right. eauto.
  - intros [= <- <-]. auto.
Qed.

(** A field that the store function of a step leaves alone goes through
    the step unchanged. *)
Lemma load_field_frame {A B : Type} (proj : flag -> B) file name
    (conv : string -> except A) store this fuel w this' w' :
  load_field file name conv store this fuel w = Ret this' w' ->
  (forall v t, proj (store v t) = proj t) ->
  proj this' = proj this.
Proof.
  intros H Hframe. apply load_field_inv in H as [_ [[_ ->]|(v & _ & _ & ->)]];
    [reflexivity|apply Hframe].
Qed.

Lemma load_field_present {A : Type} file name (conv : string -> except A) store
    this fuel w v :
  has_parameter file name = true ->
  conv (get_parameter file name) = Ok v ->
  load_field file name conv store this fuel w = Ret (store v this) w.
Proof. unfold load_field. intros -> H. unfold bind, lift. rewrite H. reflexivity. Qed.

Lemma load_field_absent {A : Type} file name (conv : string -> except A) store
    this fuel w :
  has_parameter file name = false ->
  load_field file name conv store this fuel w = Ret this w.
Proof. unfold load_field. intros ->. reflexivity. Qed.

Lemma load_field_throws {A : Type} file name (conv : string -> except A) store
    this fuel w e :
  has_parameter file name = true ->
  conv (get_parameter file name) = Throw e ->
  load_field file name conv store this fuel w = Raise e w.
Proof. unfold load_field. intros -> H. unfold bind, lift. rewrite H. reflexivity. Qed.

Lemma has_parameter_lookup file name :
  has_parameter file name = true <-> is_Some (cf_parameters file !! name).
Proof. unfold has_parameter. apply bool_decide_eq_true. Qed.

Lemma has_parameter_none file name :
  has_parameter file name = false <-> cf_parameters file !! name = None.
Proof.
  unfold has_parameter. rewrite bool_decide_eq_false.
  rewrite <- eq_None_not_Some. reflexivity.
Qed.

Lemma get_parameter_lookup file name v :
  cf_parameters file !! name = Some v -> get_parameter file name = v.
Proof. unfold get_parameter. intros ->. reflexivity. Qed.


Lemma conf_file_of_parameters w filename name :
  cf_parameters (conf_file_of w filename) !! name = stored_field w filename name.
Proof.
  unfold conf_file_of, stored_field.
  destruct (files w !! filename); [reflexivity|apply lookup_empty].
Qed.

Lemma flag_from_file_empty fuel w :
  flag_from_file "" fuel w = Raise (invalid_parameter msg_no_filename) w.
Proof. reflexivity. Qed.

(** The constructor once the test on the file name is passed: the object
    starts as a default flag bound to [filename], and the fields are taken
    from the parameters found in the file. *)
Lemma flag_from_file_unfold filename fuel w :
  filename <> "" ->
  flag_from_file filename fuel w =
  (let this := with_filename filename default_flag in
   let file := conf_file_of w filename in
   if negb (has_parameter file "unit")
      || negb (has_parameter file "section")
      || negb (has_parameter file "name")
      || negb (has_parameter file "message")
   then throw (invalid_parameter msg_missing_field)
   else
     let this := with_unit (get_parameter file "unit") this in
     let this := with_section (get_parameter file "section") this in
     let this := with_name (get_parameter file "name") this in
     this <- load_field file "source_file" Ok with_source_file this ;;
     this <- load_field file "function" Ok with_function this ;;
     this <- load_field file "line" stol_int with_line this ;;
     let this := with_message (get_parameter file "message") this in
     this <- load_field file "priority" stol_int with_priority this ;;
     this <- load_field file "manual_down"
               (fun s => Ok (String.eqb s "yes")) with_manual_down this ;;
     this <- load_field file "date" stol with_date this ;;
     this <- load_field file "modified" stol with_modified this ;;
     this <- load_field file "tags"
               (fun tags => Ok (tokenize_string tags "," true
                                  (String " " (String "010" (String "013" (String "009" ""))))%char))
               (fun tag_list this => with_tags (list_to_set tag_list ∪ f_tags this) this)
               this ;;
     this <- load_field file "hostname" Ok with_hostname this ;;
     this <- load_field file "count" stol_int with_count this ;;
     this <- load_field file "version" Ok with_version this ;;
     ret this) fuel w.
Proof.
  intros H. apply string_empty_false in H.
  unfold flag_from_file, get_filename. cbn [f_filename with_filename default_flag].
  rewrite H. reflexivity.
Qed.

(** One step of the constructor, read backwards. *)
Ltac load_step H t Ht :=
  apply bind_ret_inv in H as (t & ? & Ht & H); cbv beta zeta in H;
  let E := fresh in
  pose proof (proj1 (load_field_inv _ _ _ _ _ _ _ _ _ Ht)) as E; subst.

Lemma flag_from_file_priority filename fuel w f w' :
  flag_from_file filename fuel w = Ret f w' ->
  match stored_field w filename "priority" with
  | Some text => exists n, stol text = Ok n /\ get_priority f = wrap32 n
  | None => get_priority f = 5
  end.
Proof.
  intros H. destruct (string_dec filename "") as [->|Hfn]; [discriminate|].
  rewrite (flag_from_file_unfold _ _ _ Hfn) in H. cbv zeta in H.
  match type of H with (if ?c then _ else _) _ _ = _ => destruct c end;
    [discriminate|].
  load_step H t1 H1. load_step H t2 H2. load_step H t3 H3.
  load_step H t4 H4. load_step H t5 H5. load_step H t6 H6.
  load_step H t7 H7. load_step H t8 H8. load_step H t9 H9.
  load_step H t10 H10. load_step H t11 H11.
  injection H as -> ->.
  unfold get_priority.
  rewrite (load_field_frame f_priority _ _ _ _ _ _ _ _ _ H11 (fun _ _ => eq_refl)).
  rewrite (load_field_frame f_priority _ _ _ _ _ _ _ _ _ H10 (fun _ _ => eq_refl)).
  rewrite (load_field_frame f_priority _ _ _ _ _ _ _ _ _ H9 (fun _ _ => eq_refl)).
  rewrite (load_field_frame f_priority _ _ _ _ _ _ _ _ _ H8 (fun _ _ => eq_refl)).
  rewrite (load_field_frame f_priority _ _ _ _ _ _ _ _ _ H7 (fun _ _ => eq_refl)).
  rewrite (load_field_frame f_priority _ _ _ _ _ _ _ _ _ H6 (fun _ _ => eq_refl)).
  rewrite (load_field_frame f_priority _ _ _ _ _ _ _ _ _ H5 (fun _ _ => eq_refl)).
  apply load_field_inv in H4 as [_ [[Hno ->]|(v & Hyes & Hv & ->)]].
  - apply has_parameter_none in Hno. rewrite conf_file_of_parameters in Hno.
    rewrite Hno. cbn [f_priority with_message].
    rewrite (load_field_frame f_priority _ _ _ _ _ _ _ _ _ H3 (fun _ _ => eq_refl)).
    rewrite (load_field_frame f_priority _ _ _ _ _ _ _ _ _ H2 (fun _ _ => eq_refl)).
    rewrite (load_field_frame f_priority _ _ _ _ _ _ _ _ _ H1 (fun _ _ => eq_refl)).
    reflexivity.
  - apply has_parameter_lookup in Hyes as [text Htext].
    rewrite (get_parameter_lookup _ _ _ Htext) in Hv.
    rewrite conf_file_of_parameters in Htext. rewrite Htext.
    unfold stol_int in Hv. destruct (stol text) as [n|]; [|discriminate].
    injection Hv as <-. exists n. split; reflexivity.
Qed.

(** ** Claims on the path lookup, the tags and the priority *)

(** C3.  The claim is that resolving the flags directory returns in every
    state.  In a process that starts (the static is empty) the lookup
    calls itself before doing anything else: whatever the fuel, neither
    [get_path_to_flag_files], nor [load_flags], nor [get_filename] and
    [save] on a flag without a memoized file name return. *)
Theorem path_lookup_never_returns (fuel : nat) (dirs : gset string)
    (fs : gmap string conf) (denied : gset string) (now : Z)
    (host version : string) (pos : string * Z) :
  let w := initial_world dirs fs denied now host version pos in
  get_path_to_flag_files fuel w = OutOfFuel
  /\ load_flags fuel w = OutOfFuel
  /\ forall this : flag,
       get_filename (with_filename "" this) fuel w = OutOfFuel
       /\ save (with_filename "" this) fuel w = OutOfFuel.
Proof.
  intros w.
  assert (Hw : g_path_to_flag_files w = "") by reflexivity.
  pose proof (get_path_to_flag_files_empty fuel w Hw) as Hpath.
  split; [exact Hpath|]. split.
  - unfold load_flags. apply bind_of_out_of_fuel. exact Hpath.
  - intros this.
    assert (Hget : get_filename (with_filename "" this) fuel w = OutOfFuel)
      by (apply get_filename_unresolved; [reflexivity|exact Hw]).
    split; [exact Hget|].
    unfold save. apply bind_of_out_of_fuel. exact Hget.
Qed.

(** C4.  The claim is that [add_tag] validates the tag and fails with
    [invalid_name] on a string outside the grammar.  [add_tag] inserts
    whatever it is given: every string ends up in the tag set, among them
    the empty string and ["too many"], which [valid_name] rejects. *)
Theorem add_tag_skips_validation (tag : string) (f : flag) :
  get_tags (add_tag tag f) = {[ tag ]} ∪ get_tags f
  /\ valid_name "" = Throw (invalid_name msg_empty)
  /\ "" ∈ get_tags (add_tag "" f)
  /\ valid_name "too many" = Throw (invalid_name msg_bad_char)
  /\ "too many" ∈ get_tags (add_tag "too many" f).
Proof.
  unfold get_tags, add_tag. cbn [f_tags with_tags].
  repeat split; try reflexivity; set_solver.
Qed.

(** C5, as stated, fails: the file-loading constructor stores the priority
    found in the record, here 250. *)
Lemma loaded_priority_out_of_range :
  exists f : flag,
    flag_from_file "/flags/a_b_c.flag" 0%nat (sample_world record_with_priority_250)
    = Ret f (sample_world record_with_priority_250)
    /\ get_priority f = 250
    /\ ~ priority_in_range f.
Proof.
  eexists. split; [vm_compute; reflexivity|].
  split; [reflexivity|]. unfold priority_in_range. cbn. lia.
Qed.

(** C5, amended.  [set_priority] clamps its argument into [0,100]; a flag
    made by the three-name constructor has priority 5; every sequence of
    setter calls keeps a priority that is in [0,100] there, so a flag made
    by the three-name constructor never leaves the range.  The file-loading
    constructor takes the priority of the record as it is (5 when the
    record has none). *)
Theorem priority_clamped_by_setter :
  (forall (p : Z) (f : flag),
      priority_in_range (set_priority p f)
      /\ get_priority (set_priority p f) = Z.max 0 (Z.min 100 p))
  /\ (forall unit section name f,
        flag_new unit section name = Ok f -> get_priority f = 5)
  /\ (forall (cs : list setter_call) (f : flag),
        priority_in_range f -> priority_in_range (run_setters cs f))
  /\ (forall unit section name f (cs : list setter_call),
        flag_new unit section name = Ok f ->
        priority_in_range (run_setters cs f))
  /\ (forall filename fuel w f w',
        flag_from_file filename fuel w = Ret f w' ->
        match stored_field w filename "priority" with
        | Some text => exists n, stol text = Ok n /\ get_priority f = wrap32 n
        | None => get_priority f = 5
        end).
Proof.
  assert (Hnew : forall unit section name f,
             flag_new unit section name = Ok f -> get_priority f = 5).
  { intros unit section name f H.
    apply flag_new_fields in H as (_ & _ & _ & ->). reflexivity. }
  split; [|split; [exact Hnew|split; [|split]]].
  - intros p f. unfold priority_in_range. rewrite set_priority_clamps. lia.
  - intros cs f. apply run_setters_priority.
  - intros unit section name f cs H. apply run_setters_priority.
    unfold priority_in_range. rewrite (Hnew _ _ _ _ H). lia.
  - intros filename fuel w f w'. apply flag_from_file_priority.
Qed.

Lemma priority_clamped_by_setter_witness :
  priority_in_range
    (run_setters [call_set_priority 250; call_add_tag "x"; call_set_priority (-5)]
       (with_name "c" (with_section "b" (with_unit "a" default_flag))))
  /\ (exists n, stol "250" = Ok n
        /\ get_priority
             (mk_flag STATE_UP "a" "b" "c" "/flags/a_b_c.flag" "" "" 0 "m" 250
                false (-1) (-1) ∅ "" 0 "") = wrap32 n).
Proof.
  split.
  - apply (proj1 (proj2 (proj2 (proj2 priority_clamped_by_setter))) "a" "b" "c").
    reflexivity.
  - apply (proj2 (proj2 (proj2 (proj2 priority_clamped_by_setter)))
             "/flags/a_b_c.flag" 0%nat (sample_world record_with_priority_250)
             _ (sample_world record_with_priority_250)).
    vm_compute. reflexivity.
Defined.

(** ** [save] *)

Lemma exists_has_parameter w fn name :
  exists_ (conf_file_of w fn) && has_parameter (conf_file_of w fn) name
  = bool_decide (is_Some (stored_field w fn name)).
Proof.
  unfold exists_, has_parameter, conf_file_of, stored_field.
  destruct (files w !! fn) as [ps|]; reflexivity.
Qed.

Lemma wrap64_in_range (z : Z) : LONG_MIN <= z <= LONG_MAX -> wrap64 z = z.
Proof.
  unfold wrap64, wrap, LONG_MIN, LONG_MAX. intros H.
  rewrite Z.mod_small; lia.
Qed.

Lemma wrap32_in_range (z : Z) : INT_MIN <= z <= INT_MAX -> wrap32 z = z.
Proof.
  unfold wrap32, wrap, INT_MIN, INT_MAX. intros H.
  rewrite Z.mod_small; lia.
Qed.

Lemma stol_in_range (s : string) (n : Z) :
  stol s = Ok n -> LONG_MIN <= n <= LONG_MAX.
Proof.
  unfold stol.
  destruct (match skip_space s with
            | String c r => if is_dash c then (true, r)
                            else if (code c =? 43)%N then (false, r)
                            else (false, skip_space s)
            | EmptyString => (false, skip_space s)
            end) as [negative s2].
  destruct (starts_with_digit s2); [|discriminate].
  match goal with
  | |- context [if ?c then _ else _] => destruct c eqn:Hr
  end; [|discriminate].
  intros [= <-]. apply andb_true_iff in Hr as [H1 H2]. lia.
Qed.


Lemma conf_file_of_old w fn :
  cf_parameters (conf_file_of w fn) = default ∅ (files w !! fn).
Proof. unfold conf_file_of. destruct (files w !! fn); reflexivity. Qed.

Lemma old_lookup w fn name :
  default ∅ (files w !! fn) !! name = stored_field w fn name.
Proof. unfold stored_field. destruct (files w !! fn); [reflexivity|apply lookup_empty]. Qed.

Lemma bool_decide_is_Some {A : Type} (o : option A) :
  bool_decide (is_Some o) = match o with Some _ => true | None => false end.
Proof.
  destruct o; [apply bool_decide_eq_true_2; eauto|].
  apply bool_decide_eq_false_2. apply is_Some_None.
Qed.

Lemma cf_parameters_set name value file :
  cf_parameters (set_parameter name value file) = <[name := value]> (cf_parameters file).
Proof. reflexivity. Qed.

Lemma cf_filename_set name value file :
  cf_filename (set_parameter name value file) = cf_filename file.
Proof. reflexivity. Qed.

Lemma get_filename_state this fuel w fn this' w' :
  get_filename this fuel w = Ret (fn, this') w' -> f_state this' = f_state this.
Proof. intros H. apply get_filename_ret in H as (_ & _ & -> & _). reflexivity. Qed.

Lemma save_up_returns this fuel w fn this' :
  f_state this = STATE_UP ->
  get_filename this fuel w = Ret (fn, this') w ->
  fn ∉ refused w ->
  (forall text, stored_field w fn "count" = Some text -> exists n, stol text = Ok n) ->
  save this fuel w
  = Ret (true, this')
      (with_files
         (<[fn := written_parameters this' w (default ∅ (files w !! fn))]>
            (match files w !! fn with
             | Some old => <[fn ++ ".bak" := old]> (files w)
             | None => files w
             end)) w).
Proof.
  intros Hstate Hget Hfree Hcount.
  pose proof (get_filename_state _ _ _ _ _ _ Hget) as Hstate'.
  rewrite Hstate in Hstate'.
  pose proof (get_filename_ret _ _ _ _ _ _ Hget) as (_ & Hfn & _ & _).
  unfold save. rewrite (bind_of_ret _ _ _ _ _ _ Hget). cbv beta iota.
  apply string_empty_false in Hfn. rewrite Hfn, Hstate'.
  unfold bind, get_conf_file, time, gethostname, gets. cbv beta iota.
  rewrite !exists_has_parameter, !bool_decide_is_Some.
  unfold written_parameters. rewrite !old_lookup.
  assert (Hsave : forall file, cf_filename file = fn ->
    save_configuration file ".bak" true fuel w
    = Ret true (with_files (<[fn := cf_parameters file]>
        (match files w !! fn with
         | Some old => <[fn ++ ".bak" := old]> (files w)
         | None => files w
         end)) w)).
  { intros file Hfile. unfold save_configuration. rewrite Hfile. cbn [orb].
    rewrite bool_decide_eq_false_2 by exact Hfree. reflexivity. }
  assert (Hname : cf_filename (conf_file_of w fn) = fn).
  { unfold conf_file_of. destruct (files w !! fn); reflexivity. }
  destruct (stored_field w fn "date") as [date|] eqn:Hdate;
    destruct (stored_field w fn "count") as [text|] eqn:Hcnt;
    cbv beta iota; cbn [negb].
  all: try (unfold get_parameter; rewrite !cf_parameters_set;
            rewrite !lookup_insert_ne by discriminate;
            rewrite conf_file_of_parameters, Hcnt; cbn [default from_option id];
            destruct (Hcount text eq_refl) as [n Hn]; rewrite Hn; cbn [lift]).
  all: unfold ret; cbv beta iota;
    rewrite Hsave by (rewrite !cf_filename_set; exact Hname).
  all: rewrite !cf_parameters_set, conf_file_of_old; reflexivity.
Qed.


(** Whatever [save] returns, the object it hands back is the one it was
    given, with the file name memoized. *)
Lemma save_ret_object this fuel w b this' w' :
  save this fuel w = Ret (b, this') w' ->
  this' = with_filename (f_filename this') this
  /\ (f_filename this <> "" -> this' = this).
Proof.
  intros H. unfold save in H.
  apply bind_ret_inv in H as ([fn t1] & w1 & Hget & H). cbv beta iota in H.
  apply get_filename_ret in Hget as (-> & Hfn & -> & Hmemo).
  assert (Hgoal : this' = with_filename fn this ->
            this' = with_filename (f_filename this') this
            /\ (f_filename this <> "" -> this' = this)).
  { intros ->. split; [reflexivity|].
    intros Hne. destruct (Hmemo Hne) as [_ E]. exact E. }
  apply Hgoal. clear Hgoal Hmemo.
  apply string_empty_false in Hfn. rewrite Hfn in H.
  destruct (f_state (with_filename fn this)).
  - repeat (apply bind_ret_inv in H as (? & ? & _ & H); cbv beta in H).
    unfold ret in H. congruence.
  - repeat (apply bind_ret_inv in H as (? & ? & _ & H); cbv beta in H).
    unfold ret in H. congruence.
Qed.


Lemma written_date this w old :
  written_parameters this w old !! "date"
  = Some (default (to_string (clock w)) (old !! "date")).
Proof.
  unfold written_parameters. cbv zeta.
  destruct (old !! "date") as [date|] eqn:Hdate;
    rewrite !lookup_insert_ne by discriminate.
  - exact Hdate.
  - apply lookup_insert_eq.
Qed.

Lemma written_modified this w old :
  written_parameters this w old !! "modified" = Some (to_string (clock w)).
Proof.
  unfold written_parameters. cbv zeta.
  rewrite !lookup_insert_ne by discriminate. apply lookup_insert_eq.
Qed.

Lemma written_count this w old :
  written_parameters this w old !! "count"
  = Some match old !! "count" with
         | Some text =>
             match stol text with
             | Ok n => to_string (wrap64 (n + 1))
             | Throw _ => "1"
             end
         | None => "1"
         end.
Proof. unfold written_parameters. cbv zeta. apply lookup_insert_eq. Qed.

Lemma stored_field_after_write w fn ps kept field :
  stored_field (with_files (<[fn := ps]> kept) w) fn field = ps !! field.
Proof.
  unfold stored_field. cbn [files with_files]. rewrite lookup_insert_eq. reflexivity.
Qed.

(** The record that a raise leaves behind. *)
Lemma save_up_record this fuel w fn this' :
  f_state this = STATE_UP ->
  get_filename this fuel w = Ret (fn, this') w ->
  fn ∉ refused w ->
  (forall text, stored_field w fn "count" = Some text ->
                exists n, stol text = Ok n /\ n < LONG_MAX) ->
  exists w1,
    save this fuel w = Ret (true, this') w1
    /\ refused w1 = refused w
    /\ stored_field w1 fn "date"
       = Some (default (to_string (clock w)) (stored_field w fn "date"))
    /\ stored_field w1 fn "modified" = Some (to_string (clock w))
    /\ (forall text n, stored_field w fn "count" = Some text -> stol text = Ok n ->
          stored_field w1 fn "count" = Some (to_string (n + 1)))
    /\ (stored_field w fn "count" = None ->
          stored_field w1 fn "count" = Some "1").
Proof.
  intros Hstate Hget Hfree Hcount.
  eexists. split.
  { apply (save_up_returns _ _ _ _ _ Hstate Hget Hfree).
    intros text Htext. destruct (Hcount text Htext) as (n & Hn & _). eauto. }
  split; [reflexivity|].
  rewrite !stored_field_after_write.
  rewrite written_date, written_modified, written_count, !old_lookup.
  repeat split.
  - intros text n Htext Hn. rewrite Htext, Hn.
    destruct (Hcount text Htext) as (n' & Hn' & Hlt).
    assert (n' = n) by congruence. subst n'.
    pose proof (stol_in_range _ _ Hn) as Hrange.
    rewrite wrap64_in_range; [reflexivity|]. unfold LONG_MAX, LONG_MIN in *. lia.
  - intros ->. reflexivity.
Qed.





(** C10.  The object that a returning [save] hands back differs from the
    one it was given by the memoized file name at most: count, date and
    modified, like every other field, are as before, and an object whose
    file name was already memoized is unchanged.  On the sample flag the
    count goes to 1 and the date to the current time in the record only;
    the object keeps 0 and -1 until it is loaded again. *)
Theorem save_leaves_object_alone (this : flag) (fuel : nat) (w : world)
    (b : bool) (this' : flag) (w' : world) :
  save this fuel w = Ret (b, this') w' ->
  this' = with_filename (f_filename this') this
  /\ get_count this' = get_count this
  /\ get_date this' = get_date this
  /\ get_modified this' = get_modified this
  /\ (f_filename this <> "" -> this' = this)
  /\ exists saved w1 loaded,
       save sample_flag 0%nat (sample_world ∅) = Ret (true, saved) w1
       /\ get_count saved = 0 /\ get_date saved = -1 /\ get_modified saved = -1
       /\ stored_field w1 sample_flag_file "count" = Some "1"
       /\ stored_field w1 sample_flag_file "date" = Some "1700000000"
       /\ flag_from_file sample_flag_file 0%nat w1 = Ret loaded w1
       /\ get_count loaded = 1 /\ get_date loaded = 1700000000
       /\ get_modified loaded = 1700000000.
Proof.
  intros H. destruct (save_ret_object _ _ _ _ _ _ H) as [Hobj Hmemo].
  split; [exact Hobj|].
  repeat (split; [rewrite Hobj; reflexivity|]).
  split; [exact Hmemo|].
  eexists _, _, _. split; [vm_compute; reflexivity|].
  repeat (split; [reflexivity|]).
  split; [vm_compute; reflexivity|].
  repeat split.
Qed.

Lemma save_leaves_object_alone_witness :
  get_count (with_filename sample_flag_file sample_flag) = get_count sample_flag.
Proof.
  eapply (save_leaves_object_alone sample_flag 0%nat (sample_world ∅) true).
  vm_compute. reflexivity.
Defined.

(** ** [load_flags] *)

Lemma sentinel_tags :
  ({[ "too-many" ]} ∪ ({[ "flag" ]} ∪ ∅) : gset string) = {[ "flag"; "too-many" ]}.
Proof. set_solver. Qed.

Lemma flag_new_sentinel :
  flag_new "communicatord" "flag" "too-many-flags"
  = Ok (with_name "too-many-flags"
          (with_section "flag" (with_unit "communicatord" default_flag))).
Proof. reflexivity. Qed.

(** The loop below the ceiling: every file is loaded and appended. *)
Lemma load_flags_loop_prefix path fuel w tail :
  forall filenames loaded result,
    Forall2 (loads fuel w) filenames loaded ->
    (length result + length filenames <= FLAGS_LIMIT)%nat ->
    load_flags_loop path (filenames ++ tail) result fuel w
    = load_flags_loop path tail (result ++ loaded)%list fuel w.
Proof.
  induction filenames as [|fn rest IH]; intros loaded result Hall Hlen.
  - inversion Hall; subst. cbn [app]. rewrite app_nil_r. reflexivity.
  - inversion Hall as [|? f ? loaded' Hf Hrest]; subst.
    cbn [app load_flags_loop length] in *.
    destruct (Nat.leb_spec FLAGS_LIMIT (length result)) as [Hge|Hlt]; [lia|].
    rewrite (bind_of_ret _ _ _ _ _ _ Hf).
    rewrite IH with (loaded := loaded'); [|exact Hrest|rewrite length_app; cbn; lia].
    rewrite <- app_assoc. reflexivity.
Qed.

Lemma load_flags_loop_loads path fuel w filenames loaded :
  Forall2 (loads fuel w) filenames loaded ->
  (length filenames <= FLAGS_LIMIT)%nat ->
  load_flags_loop path filenames [] fuel w = Ret loaded w.
Proof.
  intros Hall Hlen.
  rewrite <- (app_nil_r filenames).
  rewrite (load_flags_loop_prefix path fuel w [] filenames loaded []);
    [reflexivity|exact Hall|cbn [length Nat.add]; lia].
Qed.

(** The loop at the ceiling: the sentinel is appended and the loop ends;
    the file at hand and those after it are not opened, and nothing is
    written. *)
Lemma load_flags_loop_full path fuel w filename rest result :
  (FLAGS_LIMIT <= length result)%nat ->
  load_flags_loop path (filename :: rest) result fuel w
  = Ret (result ++ [too_many_flags path (source_position w)])%list w.
Proof.
  intros Hlen. cbn [load_flags_loop].
  destruct (Nat.leb_spec FLAGS_LIMIT (length result)) as [Hge|Hlt]; [|lia].
  unfold COMMUNICATORD_FLAG_UP. rewrite flag_new_sentinel. reflexivity.
Qed.


Lemma load_flags_unfold fuel w :
  g_path_to_flag_files w <> "" ->
  load_flags fuel w
  = match read_path (g_path_to_flag_files w ++ "/*.flag") fuel w with
    | Ret flag_filenames w1 =>
        load_flags_loop (g_path_to_flag_files w) flag_filenames [] fuel w1
    | Raise e w1 => Raise e w1
    | OutOfFuel => OutOfFuel
    end.
Proof.
  intros Hw. unfold load_flags.
  rewrite (bind_of_ret _ _ _ _ _ _ (get_path_to_flag_files_cached fuel w Hw)).
  apply string_empty_false in Hw. rewrite Hw. reflexivity.
Qed.




(** Closes an equation between closed terms by evaluating both sides. *)
Ltac by_evaluation :=
  match goal with |- ?a = ?b => vm_cast_no_check (@eq_refl _ b) end.

(** Up to the ceiling, [load_flags] returns the flags of the files of the
    listing and no sentinel. *)
Lemma load_flags_under_limit (fuel : nat) (w : world)
    (filenames : list string) (loaded : list flag) :
  g_path_to_flag_files w <> "" ->
  read_path (g_path_to_flag_files w ++ "/*.flag") fuel w = Ret filenames w ->
  (length filenames <= FLAGS_LIMIT)%nat ->
  Forall2 (loads fuel w) filenames loaded ->
  load_flags fuel w = Ret loaded w.
Proof.
  intros Hw Hread Hlen Hall.
  rewrite (load_flags_unfold _ _ Hw), Hread.
  apply load_flags_loop_loads; assumption.
Qed.

Example load_flags_at_the_ceiling :
  load_flags 0%nat (sample_world (numbered_records 100))
  = Ret (map numbered_flag (seq 0 100)) (sample_world (numbered_records 100)).
Proof. by_evaluation. Qed.







(** ** Decimal text *)

Lemma uint_value_of_uint_acc (d : Decimal.uint) :
  forall acc : positive, Z.pos (Pos.of_uint_acc d acc) = uint_value (Z.pos acc) d.
Proof.
  induction d as [|d IH|d IH|d IH|d IH|d IH|d IH|d IH|d IH|d IH|d IH];
    intros acc; cbn [Pos.of_uint_acc uint_value]; [reflexivity|..];
    rewrite IH; f_equal; lia.
Qed.

Lemma uint_value_of_uint (d : Decimal.uint) :
  Z.of_N (Pos.of_uint d) = uint_value 0 d.
Proof.
  induction d as [|d IH|d IH|d IH|d IH|d IH|d IH|d IH|d IH|d IH|d IH];
    cbn [Pos.of_uint uint_value]; [reflexivity|exact IH|..];
    cbn [Z.of_N]; rewrite uint_value_of_uint_acc; reflexivity.
Qed.

Lemma digits_value_of_text (d : Decimal.uint) :
  forall acc, digits_value acc (NilEmpty.string_of_uint d) = uint_value acc d.
Proof.
  induction d as [|d IH|d IH|d IH|d IH|d IH|d IH|d IH|d IH|d IH|d IH];
    intros acc; cbn [NilEmpty.string_of_uint uint_value]; [reflexivity|..];
    cbn [digits_value]; rewrite <- IH; reflexivity.
Qed.

(** The text of a number that has a digit starts with a digit. *)
Lemma text_starts_with_digit (d : Decimal.uint) :
  d <> Decimal.Nil ->
  exists c r, NilEmpty.string_of_uint d = String c r /\ is_digit c = true.
Proof.
  destruct d; [contradiction|..]; intros _; cbn [NilEmpty.string_of_uint];
    eexists _, _; split; reflexivity.
Qed.

Lemma digit_not_space (c : ascii) : is_digit c = true -> is_space c = false.
Proof. by_cases_on_byte c. Qed.

Lemma digit_not_plus (c : ascii) : is_digit c = true -> (code c =? 43)%N = false.
Proof. by_cases_on_byte c. Qed.

Lemma stol_of_digits (s : string) (c : ascii) (r : string) :
  s = String c r -> is_digit c = true ->
  LONG_MIN <= digits_value 0 s <= LONG_MAX ->
  stol s = Ok (digits_value 0 s).
Proof.
  intros -> Hc Hrange. unfold stol. cbn [skip_space].
  rewrite (digit_not_space c Hc), (digit_not_dash c Hc), (digit_not_plus c Hc).
  cbv beta iota zeta. cbn [starts_with_digit]. rewrite Hc. cbv beta iota zeta.
  replace ((LONG_MIN <=? _) && (_ <=? LONG_MAX)) with true; [reflexivity|].
  symmetry. apply andb_true_iff. split; apply Z.leb_le; lia.
Qed.

Lemma stol_of_minus_digits (s : string) (c : ascii) (r : string) :
  s = String c r -> is_digit c = true ->
  LONG_MIN <= - digits_value 0 s <= LONG_MAX ->
  stol (String "-" s) = Ok (- digits_value 0 s).
Proof.
  intros -> Hc Hrange. unfold stol. cbn [skip_space].
  change (is_space "-") with false. cbv beta iota zeta.
  assert (E : is_dash "-"%char = true) by reflexivity. rewrite E.
  cbn [starts_with_digit]. rewrite Hc.
  replace ((LONG_MIN <=? _) && (_ <=? LONG_MAX)) with true; [reflexivity|].
  symmetry. apply andb_true_iff. split; apply Z.leb_le; lia.
Qed.

(** [std::stol] reads back what [std::to_string] wrote. *)
Lemma stol_to_string (z : Z) :
  LONG_MIN <= z <= LONG_MAX -> stol (to_string z) = Ok z.
Proof.
  intros Hz. unfold to_string. destruct z as [|p|p]; [reflexivity|..];
    cbn [Z.to_int NilZero.string_of_int];
    pose proof (DecimalPos.Unsigned.to_uint_nonnil p) as Hnil;
    pose proof (DecimalPos.Unsigned.of_to p) as Hback;
    assert (Htext : NilZero.string_of_uint (Pos.to_uint p)
                    = NilEmpty.string_of_uint (Pos.to_uint p))
      by (destruct (Pos.to_uint p); [contradiction|reflexivity..]);
    rewrite Htext;
    destruct (text_starts_with_digit _ Hnil) as (c & r & Hs & Hc);
    assert (Hval : digits_value 0 (NilEmpty.string_of_uint (Pos.to_uint p)) = Z.pos p)
      by (rewrite digits_value_of_text, <- uint_value_of_uint, Hback; reflexivity).
  - rewrite (stol_of_digits _ c r Hs Hc); rewrite Hval; [reflexivity|exact Hz].
  - rewrite (stol_of_minus_digits _ c r Hs Hc); rewrite Hval; [reflexivity|].
    change (- Z.pos p) with (Z.neg p). exact Hz.
Qed.

Lemma wrap64_range (z : Z) : LONG_MIN <= wrap64 z <= LONG_MAX.
Proof.
  unfold wrap64, wrap, LONG_MIN, LONG_MAX.
  pose proof (Z.mod_pos_bound (z + 2 ^ (64 - 1)) (2 ^ 64) ltac:(lia)). lia.
Qed.

Lemma int_in_long (z : Z) : INT_MIN <= z <= INT_MAX -> LONG_MIN <= z <= LONG_MAX.
Proof. unfold INT_MIN, INT_MAX, LONG_MIN, LONG_MAX. lia. Qed.

Lemma stol_int_to_string (z : Z) :
  INT_MIN <= z <= INT_MAX -> stol_int (to_string z) = Ok z.
Proof.
  intros Hz. unfold stol_int. rewrite (stol_to_string z (int_in_long z Hz)).
  rewrite (wrap32_in_range z Hz). reflexivity.
Qed.

(** ** Tags through [join_strings] and [tokenize_string] *)

Lemma trim_left_clean (set t : string) :
  starts_without set t = true -> trim_left set t = t.
Proof.
  destruct t as [|c r]; [discriminate|]. cbn [starts_without trim_left].
  intros H. apply negb_true_iff in H. rewrite H. reflexivity.
Qed.

Lemma trim_right_clean (set t : string) :
  ends_without set t = true -> trim_right set t = t.
Proof.
  induction t as [|c r IH]; [discriminate|].
  destruct r as [|c' r'].
  - cbn [ends_without trim_right string_empty andb].
    intros H. apply negb_true_iff in H. rewrite H. reflexivity.
  - intros H. change (ends_without set (String c (String c' r')))
      with (ends_without set (String c' r')) in H.
    specialize (IH H).
    change (trim_right set (String c (String c' r')))
      with (let r0 := trim_right set (String c' r') in
            if string_empty r0 && in_chars c set then EmptyString else String c r0).
    rewrite IH. reflexivity.
Qed.

Lemma trim_clean (t : string) :
  clean_tag t -> trim_right tag_white_space (trim_left tag_white_space t) = t.
Proof.
  intros (_ & Hstart & Hend).
  rewrite (trim_left_clean _ _ Hstart). apply trim_right_clean. exact Hend.
Qed.

Lemma clean_tag_not_empty (t : string) : clean_tag t -> string_empty t = false.
Proof. intros (_ & Hstart & _). destruct t; [discriminate|reflexivity]. Qed.

Lemma split_tokens_one (t : string) :
  all_chars (fun c => negb (in_chars c ",")) t = true ->
  split_tokens "," t = [t].
Proof.
  induction t as [|c r IH]; [reflexivity|].
  cbn [all_chars split_tokens]. intros H. apply andb_true_iff in H as [Hc Hr].
  apply negb_true_iff in Hc. rewrite Hc, (IH Hr). reflexivity.
Qed.

Lemma split_tokens_first (t s : string) :
  all_chars (fun c => negb (in_chars c ",")) t = true ->
  split_tokens "," (t ++ "," ++ s) = t :: split_tokens "," s.
Proof.
  induction t as [|c r IH].
  - intros _. reflexivity.
  - cbn [all_chars]. intros H. apply andb_true_iff in H as [Hc Hr].
    apply negb_true_iff in Hc. rewrite append_cons.
    cbn [split_tokens]. rewrite Hc, (IH Hr). reflexivity.
Qed.

Lemma split_join (l : list string) :
  l <> [] -> Forall clean_tag l -> split_tokens "," (join_strings l ",") = l.
Proof.
  induction l as [|t l IH]; [contradiction|]. intros _ Hall.
  inversion Hall as [|? ? (Hcomma & _) Hrest]; subst.
  destruct l as [|t' l'].
  - cbn [join_strings]. apply split_tokens_one. exact Hcomma.
  - change (join_strings (t :: t' :: l') ",")
      with (t ++ "," ++ join_strings (t' :: l') ",").
    rewrite (split_tokens_first _ _ Hcomma). f_equal.
    apply IH; [discriminate|exact Hrest].
Qed.

Lemma tokenize_join (l : list string) :
  Forall clean_tag l ->
  tokenize_string (join_strings l ",") "," true tag_white_space = l.
Proof.
  intros Hall. destruct l as [|t l]; [reflexivity|].
  assert (Hne : t :: l <> []) by discriminate.
  unfold tokenize_string. rewrite (split_join _ Hne Hall). clear Hne.
  induction Hall as [|x xs Hx Hxs IH]; [reflexivity|].
  cbn [map]. rewrite (trim_clean x Hx). rewrite filter_cons_True.
  - f_equal. exact IH.
  - rewrite (clean_tag_not_empty x Hx). reflexivity.
Qed.

Lemma set_in_order_perm (s : gset string) : set_in_order s ≡ₚ elements s.
Proof. unfold set_in_order. apply merge_sort_Permutation. Qed.

Lemma set_in_order_to_set (s : gset string) : list_to_set (set_in_order s) = s.
Proof.
  rewrite (list_to_set_perm_L _ _ (set_in_order_perm s)).
  apply list_to_set_elements_L.
Qed.

Lemma set_in_order_clean (s : gset string) :
  (forall t, t ∈ s -> clean_tag t) -> Forall clean_tag (set_in_order s).
Proof.
  intros H. apply Forall_forall. intros t Ht. apply H.
  rewrite (set_in_order_perm s) in Ht. apply elem_of_elements. exact Ht.
Qed.

(** The tags of a flag come back from the text that [save] writes when
    each of them is clean. *)
Lemma tags_round_trip (s : gset string) :
  (forall t, t ∈ s -> clean_tag t) ->
  list_to_set
    (tokenize_string (join_strings (set_in_order s) ",") "," true tag_white_space)
  = s.
Proof.
  intros H. rewrite (tokenize_join _ (set_in_order_clean s H)).
  apply set_in_order_to_set.
Qed.

(** ** Names accepted by the validator are clean tags *)

Lemma valid_name_loop_bytes name :
  forall first last_char lc out,
    valid_name_loop first last_char name = Ok (lc, out) ->
    all_chars name_byte out = true.
Proof.
  induction name as [|c rest IH]; intros first last_char lc out.
  - intros [= _ <-]. reflexivity.
  - loop_turn c; repeat match goal with
      | |- context [if ?b then _ else _ ] => destruct b
      end; try discriminate;
      match goal with
      | |- context [valid_name_loop false ?x rest] =>
          specialize (IH false x);
          destruct (valid_name_loop false x rest) as [[lc' out']|e'];
          [intros [= _ <-]; cbn [all_chars]; rewrite (IH lc' out' eq_refl),
             andb_true_r | discriminate]
      end; unfold name_byte, is_lower_or_digit;
      rewrite ?Hdash; try rewrite Hdigit;
      try rewrite (upper_folds_to_lower c Hupper);
      try rewrite (in_range_is_lower c Hrange);
      rewrite ?orb_true_r; reflexivity.
Qed.

Lemma all_chars_impl (p q : ascii -> bool) (s : string) :
  (forall c, p c = true -> q c = true) ->
  all_chars p s = true -> all_chars q s = true.
Proof.
  intros Hpq. induction s as [|c r IH]; [reflexivity|].
  cbn [all_chars]. intros H. apply andb_true_iff in H as [Hc Hr].
  rewrite (Hpq c Hc), (IH Hr). reflexivity.
Qed.

Lemma all_chars_ends (set s : string) :
  s <> "" ->
  all_chars (fun c => negb (in_chars c set)) s = true ->
  ends_without set s = true.
Proof.
  induction s as [|c r IH]; [contradiction|]. intros _.
  cbn [all_chars]. intros H. apply andb_true_iff in H as [Hc Hr].
  destruct r as [|c' r']; [exact Hc|].
  change (ends_without set (String c (String c' r')))
    with (ends_without set (String c' r')).
  apply IH; [discriminate|exact Hr].
Qed.

Lemma name_byte_no_comma (c : ascii) :
  name_byte c = true -> negb (in_chars c ",") = true.
Proof. by_cases_on_byte c. Qed.

Lemma name_byte_no_space (c : ascii) :
  name_byte c = true -> negb (in_chars c tag_white_space) = true.
Proof. by_cases_on_byte c. Qed.

(** What [add_tag] would have let in, had it called [valid_name]. *)
Lemma valid_name_clean (tag out : string) :
  valid_name tag = Ok out -> clean_tag out.
Proof.
  unfold valid_name. destruct tag as [|c r]; [discriminate|].
  destruct (valid_name_loop true "000"%char (String c r)) as [[lc o]|e] eqn:Hloop;
    [|discriminate].
  destruct (is_dash lc); [discriminate|]. intros [= <-].
  pose proof (valid_name_loop_bytes _ _ _ _ _ Hloop) as Hbytes.
  assert (Hne : o <> "").
  { rewrite (valid_name_loop_lowercase _ _ _ _ _ Hloop). discriminate. }
  pose proof (all_chars_impl _ _ o name_byte_no_space Hbytes) as Hspace.
  split; [exact (all_chars_impl _ _ o name_byte_no_comma Hbytes)|].
  split; [|apply all_chars_ends; assumption].
  destruct o as [|c' o']; [contradiction|].
  cbn [all_chars] in Hspace. apply andb_true_iff in Hspace as [Hc _]. exact Hc.
Qed.

(** ** Saving, then loading *)

Ltac written_lookup :=
  unfold written_parameters; cbv zeta;
  destruct (_ !! "date");
  rewrite ?lookup_insert_ne by discriminate; apply lookup_insert_eq.

Lemma written_unit this w old :
  written_parameters this w old !! "unit" = Some (f_unit this).
Proof. written_lookup. Qed.

Lemma written_section this w old :
  written_parameters this w old !! "section" = Some (f_section this).
Proof. written_lookup. Qed.

Lemma written_name this w old :
  written_parameters this w old !! "name" = Some (f_name this).
Proof. written_lookup. Qed.

Lemma written_source_file this w old :
  written_parameters this w old !! "source_file" = Some (f_source_file this).
Proof. written_lookup. Qed.

Lemma written_function this w old :
  written_parameters this w old !! "function" = Some (f_function this).
Proof. written_lookup. Qed.

Lemma written_line this w old :
  written_parameters this w old !! "line" = Some (to_string (f_line this)).
Proof. written_lookup. Qed.

Lemma written_message this w old :
  written_parameters this w old !! "message" = Some (f_message this).
Proof. written_lookup. Qed.

Lemma written_priority this w old :
  written_parameters this w old !! "priority" = Some (to_string (f_priority this)).
Proof. written_lookup. Qed.

Lemma written_manual_down this w old :
  written_parameters this w old !! "manual_down"
  = Some (if f_manual_down this then "yes" else "no").
Proof. written_lookup. Qed.

Lemma written_tags this w old :
  written_parameters this w old !! "tags"
  = Some (join_strings (set_in_order (f_tags this)) ",").
Proof. written_lookup. Qed.

Lemma written_hostname this w old :
  written_parameters this w old !! "hostname" = Some (hostname w).
Proof. written_lookup. Qed.

Lemma written_version this w old :
  written_parameters this w old !! "version" = Some (version_string w).
Proof. written_lookup. Qed.

(** The constructor on a record that has every field. *)
Lemma flag_from_file_full filename fuel w
    u s n sf fu li ms pr md da mo tg ho co ve ln pn dn mn cn :
  filename <> "" ->
  stored_field w filename "unit" = Some u ->
  stored_field w filename "section" = Some s ->
  stored_field w filename "name" = Some n ->
  stored_field w filename "source_file" = Some sf ->
  stored_field w filename "function" = Some fu ->
  stored_field w filename "line" = Some li ->
  stored_field w filename "message" = Some ms ->
  stored_field w filename "priority" = Some pr ->
  stored_field w filename "manual_down" = Some md ->
  stored_field w filename "date" = Some da ->
  stored_field w filename "modified" = Some mo ->
  stored_field w filename "tags" = Some tg ->
  stored_field w filename "hostname" = Some ho ->
  stored_field w filename "count" = Some co ->
  stored_field w filename "version" = Some ve ->
  stol li = Ok ln -> stol pr = Ok pn -> stol da = Ok dn -> stol mo = Ok mn ->
  stol co = Ok cn ->
  flag_from_file filename fuel w
  = Ret (mk_flag STATE_UP u s n filename sf fu (wrap32 ln) ms (wrap32 pn)
           (String.eqb md "yes") dn mn
           (list_to_set (tokenize_string tg "," true tag_white_space) ∪ ∅)
           ho (wrap32 cn) ve) w.
Proof.
  intros Hfn Hu Hs Hn Hsf Hfu Hli Hms Hpr Hmd Hda Hmo Htg Hho Hco Hve
         Hln Hpn Hdn Hmn Hcn.
  rewrite (flag_from_file_unfold _ _ _ Hfn). cbv zeta.
  assert (Hfield : forall name v, stored_field w filename name = Some v ->
            has_parameter (conf_file_of w filename) name = true
            /\ get_parameter (conf_file_of w filename) name = v).
  { intros name v H. rewrite <- conf_file_of_parameters in H. split.
    - apply has_parameter_lookup. rewrite H. eauto.
    - apply get_parameter_lookup. exact H. }
  unfold load_field.
  destruct (Hfield _ _ Hu) as [-> ->]. destruct (Hfield _ _ Hs) as [-> ->].
  destruct (Hfield _ _ Hn) as [-> ->]. destruct (Hfield _ _ Hsf) as [-> ->].
  destruct (Hfield _ _ Hfu) as [-> ->]. destruct (Hfield _ _ Hli) as [-> ->].
  destruct (Hfield _ _ Hms) as [-> ->]. destruct (Hfield _ _ Hpr) as [-> ->].
  destruct (Hfield _ _ Hmd) as [-> ->]. destruct (Hfield _ _ Hda) as [-> ->].
  destruct (Hfield _ _ Hmo) as [-> ->]. destruct (Hfield _ _ Htg) as [-> ->].
  destruct (Hfield _ _ Hho) as [-> ->]. destruct (Hfield _ _ Hco) as [-> ->].
  destruct (Hfield _ _ Hve) as [-> ->].
  unfold stol_int. rewrite Hln, Hpn, Hdn, Hmn, Hcn. reflexivity.
Qed.

(** Saving a flag that is UP and loading the record again gives back the
    unit, section, name, message, priority, manual-down mark and tags of
    the flag, with the host name and version of the process that saved,
    provided every tag is clean (as the names accepted by [valid_name]
    are), the numbers of the flag fit their C types, and the date and count
    already in the record, if any, are decimal numbers. *)
Lemma save_then_load_round_trip (this : flag) (fuel : nat) (w : world)
    (fn : string) (this' : flag) :
  f_state this = STATE_UP ->
  get_filename this fuel w = Ret (fn, this') w ->
  fn ∉ refused w ->
  (forall text, stored_field w fn "count" = Some text -> exists n, stol text = Ok n) ->
  (forall text, stored_field w fn "date" = Some text -> exists n, stol text = Ok n) ->
  LONG_MIN <= clock w <= LONG_MAX ->
  INT_MIN <= f_line this <= INT_MAX ->
  INT_MIN <= f_priority this <= INT_MAX ->
  (forall t, t ∈ f_tags this -> clean_tag t) ->
  exists w1 g,
    save this fuel w = Ret (true, this') w1
    /\ flag_from_file fn fuel w1 = Ret g w1
    /\ get_unit g = get_unit this
    /\ get_section g = get_section this
    /\ get_name g = get_name this
    /\ get_message g = get_message this
    /\ get_priority g = get_priority this
    /\ get_manual_down g = get_manual_down this
    /\ get_tags g = get_tags this
    /\ get_hostname g = hostname w
    /\ get_version g = version_string w.
Proof.
  intros Hstate Hget Hfree Hcount Hdate Hclock Hline Hprio Htags.
  pose proof (get_filename_ret _ _ _ _ _ _ Hget) as (_ & Hfn & Hthis' & _).
  pose proof (save_up_returns _ _ _ _ _ Hstate Hget Hfree Hcount) as Hsave.
  set (old := default ∅ (files w !! fn)) in *.
  set (w1 := with_files _ w) in Hsave.
  assert (Hstored : forall field,
            stored_field w1 fn field = written_parameters this' w old !! field).
  { intros field. apply stored_field_after_write. }
  assert (Hold : forall field, old !! field = stored_field w fn field).
  { intros field. apply old_lookup. }
  assert (Hdate' : exists dn, stol (default (to_string (clock w)) (old !! "date")) = Ok dn).
  { rewrite Hold. destruct (stored_field w fn "date") as [text|] eqn:E.
    - apply Hdate. reflexivity.
    - exists (clock w). apply stol_to_string. exact Hclock. }
  destruct Hdate' as [dn Hdn].
  assert (Hcount' : exists cn,
            stol match old !! "count" with
                 | Some text => match stol text with
                                | Ok n => to_string (wrap64 (n + 1))
                                | Throw _ => "1"
                                end
                 | None => "1"
                 end = Ok cn).
  { destruct (old !! "count") as [text|]; [|exists 1; reflexivity].
    destruct (stol text) as [n|]; [|exists 1; reflexivity].
    exists (wrap64 (n + 1)). apply stol_to_string. apply wrap64_range. }
  destruct Hcount' as [cn Hcn].
  assert (Hsame : forall {A} (proj : flag -> A),
            (forall v f, proj (with_filename v f) = proj f) -> proj this' = proj this).
  { intros A proj H. rewrite Hthis'. apply H. }
  eexists w1, _. split; [exact Hsave|]. split.
  - eapply (flag_from_file_full fn fuel w1) with (dn := dn) (cn := cn)
      (ln := f_line this') (pn := f_priority this') (mn := clock w);
      try exact Hfn; rewrite ?Hstored.
    + apply written_unit.
    + apply written_section.
    + apply written_name.
    + apply written_source_file.
    + apply written_function.
    + apply written_line.
    + apply written_message.
    + apply written_priority.
    + apply written_manual_down.
    + apply written_date.
    + apply written_modified.
    + apply written_tags.
    + apply written_hostname.
    + apply written_count.
    + apply written_version.
    + apply stol_to_string, int_in_long.
      rewrite (Hsame _ f_line (fun _ _ => eq_refl)). exact Hline.
    + apply stol_to_string, int_in_long.
      rewrite (Hsame _ f_priority (fun _ _ => eq_refl)). exact Hprio.
    + exact Hdn.
    + apply stol_to_string. exact Hclock.
    + exact Hcn.
  - unfold get_unit, get_section, get_name, get_message, get_priority,
      get_manual_down, get_tags, get_hostname, get_version.
    cbn [f_unit f_section f_name f_message f_priority f_manual_down f_tags
         f_hostname f_version].
    rewrite (Hsame _ f_unit (fun _ _ => eq_refl)),
            (Hsame _ f_section (fun _ _ => eq_refl)),
            (Hsame _ f_name (fun _ _ => eq_refl)),
            (Hsame _ f_message (fun _ _ => eq_refl)),
            (Hsame _ f_priority (fun _ _ => eq_refl)),
            (Hsame _ f_manual_down (fun _ _ => eq_refl)),
            (Hsame _ f_tags (fun _ _ => eq_refl)).
    repeat split.
    + apply wrap32_in_range. exact Hprio.
    + destruct (f_manual_down this); reflexivity.
    + rewrite (right_id_L ∅ (∪)). apply tags_round_trip. exact Htags.
Qed.

(** C8.  The claim is that saving a flag that is UP and loading the record
    again reproduces the tags.  A flag loaded from its record, given the
    tag ["x,y"] by [add_tag] (which [valid_name] would have refused) and
    saved, comes back with the two tags ["x"] and ["y"]; unit, section,
    name, message, priority and the manual-down mark are reproduced, and
    host name and version are those of the saving process. *)
Theorem round_trip_splits_comma_tag :
  let w := sample_world record_a_b_c in
  exists f0 w1 g,
    flag_from_file "/flags/a_b_c.flag" 0%nat w = Ret f0 w
    /\ save (add_tag "x,y" f0) 0%nat w = Ret (true, add_tag "x,y" f0) w1
    /\ flag_from_file "/flags/a_b_c.flag" 0%nat w1 = Ret g w1
    /\ get_state (add_tag "x,y" f0) = STATE_UP
    /\ get_tags (add_tag "x,y" f0) = {[ "x,y" ]}
    /\ get_tags g = {[ "x"; "y" ]}
    /\ get_tags g <> get_tags (add_tag "x,y" f0)
    /\ get_unit g = get_unit f0 /\ get_section g = get_section f0
    /\ get_name g = get_name f0 /\ get_message g = get_message f0
    /\ get_priority g = get_priority f0
    /\ get_manual_down g = get_manual_down f0
    /\ get_hostname g = "host1" /\ get_version g = "1.0.5"
    /\ valid_name "x,y" = Throw (invalid_name msg_bad_char).
Proof.
  cbv zeta. eexists _, _, _.
  split; [vm_compute; reflexivity|].
  split; [vm_compute; reflexivity|].
  split; [vm_compute; reflexivity|].
  split; [reflexivity|].
  split; [vm_compute; reflexivity|].
  split; [vm_compute; reflexivity|].
  split.
  { intros H.
    apply (f_equal (fun s : gset string => bool_decide ("x" ∈ s))) in H.
    vm_compute in H. discriminate H. }
  repeat (split; [reflexivity|]). reflexivity.
Qed.

(** ** The examples of the specification *)

Example valid_name_accepts_mixed_case :
  valid_name "Core-Plugins2" = Ok "core-plugins2".
Proof. reflexivity. Qed.

Example valid_name_rejects_the_listed_strings :
  valid_name "" = Throw (invalid_name msg_empty)
  /\ valid_name "-abc" = Throw (invalid_name msg_start_dash)
  /\ valid_name "abc-" = Throw (invalid_name msg_end_dash)
  /\ valid_name "ab--c" = Throw (invalid_name msg_two_dashes)
  /\ valid_name "1abc" = Throw (invalid_name msg_start_digit)
  /\ valid_name "ab_c" = Throw (invalid_name msg_bad_char).
Proof. repeat split. Qed.

Example set_priority_examples (f : flag) :
  get_priority (set_priority (-5) f) = 0
  /\ get_priority (set_priority 250 f) = 100
  /\ get_priority (set_priority 42 f) = 42.
Proof. repeat split. Qed.

Example record_without_message_is_refused :
  flag_from_file "/flags/a_b_bad.flag" 0%nat (sample_world one_bad_record)
  = Raise (invalid_parameter msg_missing_field) (sample_world one_bad_record).
Proof. vm_compute. reflexivity. Qed.

(** * Further properties *)

(** ** Names and the three-name constructor *)


(** X1.  What [valid_name] returns is a fixed point of [valid_name]: a
    name that was accepted is accepted again, unchanged. *)
Theorem valid_name_idempotent (name out : string) :
  valid_name name = Ok out -> valid_name out = Ok out.
Proof.
  intros H. destruct (valid_name_accepts_or_rejects name) as [[msg Hm]|[Hok Hre]].
  - congruence.
  - rewrite Hok in H. injection H as <-. apply grammar_accepted. exact Hre.
Qed.

Lemma valid_name_idempotent_witness :
  valid_name "core-plugins" = Ok "core-plugins".
Proof. apply (valid_name_idempotent "Core-Plugins"). reflexivity. Defined.

(** X2.  The three-name constructor validates unit, section and name in
    that order and throws the [invalid_name] of the first that fails; when
    it returns, the three fields are the validated names, which match the
    grammar, and every other field has its initial value: state UP,
    priority 5, no tag, no file name. *)
Theorem flag_new_validates_in_order (unit section name : string) :
  match flag_new unit section name with
  | Ok f =>
      valid_name unit = Ok (get_unit f)
      /\ valid_name section = Ok (get_section f)
      /\ valid_name name = Ok (get_name f)
      /\ matches name_regex (get_unit f)
      /\ matches name_regex (get_section f)
      /\ matches name_regex (get_name f)
      /\ f = with_name (get_name f)
               (with_section (get_section f) (with_unit (get_unit f) default_flag))
  | Throw e =>
      is_invalid_name e
      /\ (valid_name unit = Throw e
          \/ (exists u, valid_name unit = Ok u /\ valid_name section = Throw e)
          \/ (exists u s, valid_name unit = Ok u /\ valid_name section = Ok s
                          /\ valid_name name = Throw e))
  end.
Proof.
  assert (Hre : forall x y, valid_name x = Ok y -> matches name_regex y).
  { intros x y H. destruct (valid_name_accepts_or_rejects x) as [[msg Hm]|[Hok Hm]];
      congruence. }
  assert (Hth : forall x e, valid_name x = Throw e -> is_invalid_name e).
  { intros x e H. destruct (valid_name_accepts_or_rejects x) as [[msg Hm]|[Hok Hm]];
      [|congruence]. rewrite Hm in H. injection H as <-. exact I. }
  unfold flag_new.
  destruct (valid_name unit) as [u|e] eqn:Hu; [|split; eauto].
  destruct (valid_name section) as [s|e] eqn:Hs; [|split; eauto 6].
  destruct (valid_name name) as [n|e] eqn:Hn; [|split; eauto 8].
  cbn. repeat split; eauto.
Qed.

(** ** One file per triple *)











(** ** Setters *)

Lemma run_setter_frame (c : setter_call) (f : flag) :
  f_unit (run_setter c f) = f_unit f
  /\ f_section (run_setter c f) = f_section f
  /\ f_name (run_setter c f) = f_name f
  /\ f_filename (run_setter c f) = f_filename f
  /\ f_date (run_setter c f) = f_date f
  /\ f_modified (run_setter c f) = f_modified f
  /\ f_count (run_setter c f) = f_count f
  /\ f_hostname (run_setter c f) = f_hostname f
  /\ f_version (run_setter c f) = f_version f.
Proof.
  destruct c; cbn [run_setter]; try (repeat split; reflexivity).
  unfold set_priority.
  destruct (priority <? 0); [|destruct (100 <? priority)]; repeat split; reflexivity.
Qed.

Lemma run_setters_filename (cs : list setter_call) (f : flag) :
  f_filename (run_setters cs f) = f_filename f.
Proof.
  unfold run_setters. revert f. induction cs as [|c cs IH]; intros f; [reflexivity|].
  cbn [fold_left]. rewrite IH. apply run_setter_frame.
Qed.

Lemma run_setters_frame (cs : list setter_call) (f : flag) :
  get_unit (run_setters cs f) = get_unit f
  /\ get_section (run_setters cs f) = get_section f
  /\ get_name (run_setters cs f) = get_name f
  /\ f_filename (run_setters cs f) = f_filename f
  /\ get_date (run_setters cs f) = get_date f
  /\ get_modified (run_setters cs f) = get_modified f
  /\ get_count (run_setters cs f) = get_count f
  /\ get_hostname (run_setters cs f) = get_hostname f
  /\ get_version (run_setters cs f) = get_version f.
Proof.
  unfold run_setters, get_unit, get_section, get_name, get_date, get_modified,
    get_count, get_hostname, get_version.
  revert f. induction cs as [|c cs IH]; intros f; [repeat split|].
  cbn [fold_left].
  destruct (IH (run_setter c f)) as (-> & -> & -> & -> & -> & -> & -> & -> & ->).
  apply run_setter_frame.
Qed.

(** X4.  No sequence of setter calls changes the unit, the section, the
    name, the memoized file name, the date, the modification date, the
    count, the host name or the version of a flag. *)
Theorem setters_keep_identity (cs : list setter_call) (f : flag) :
  get_unit (run_setters cs f) = get_unit f
  /\ get_section (run_setters cs f) = get_section f
  /\ get_name (run_setters cs f) = get_name f
  /\ f_filename (run_setters cs f) = f_filename f
  /\ get_date (run_setters cs f) = get_date f
  /\ get_modified (run_setters cs f) = get_modified f
  /\ get_count (run_setters cs f) = get_count f
  /\ get_hostname (run_setters cs f) = get_hostname f
  /\ get_version (run_setters cs f) = get_version f.
Proof. apply run_setters_frame. Qed.

Lemma run_setter_tags (c : setter_call) (f : flag) :
  f_tags f ⊆ f_tags (run_setter c f)
  /\ forall tag, c = call_add_tag tag -> tag ∈ f_tags (run_setter c f).
Proof.
  destruct c; cbn [run_setter];
    try (split; [reflexivity|intros tag' Htag; discriminate Htag]).
  - unfold set_priority.
    destruct (priority <? 0); [|destruct (100 <? priority)];
      (split; [reflexivity|intros tag' Htag; discriminate Htag]).
  - unfold add_tag. cbn [f_tags with_tags]. split; [set_solver|].
    intros t [= ->]. set_solver.
Qed.

(** X5.  Tags are only ever added: after any sequence of setter calls the
    flag still has every tag it had, and has every tag that an [add_tag]
    of the sequence was given.  Adding a tag twice is adding it once, and
    the order of two [add_tag] calls does not matter. *)
Theorem tags_only_grow (cs : list setter_call) (f : flag) :
  get_tags f ⊆ get_tags (run_setters cs f)
  /\ (forall tag, call_add_tag tag ∈ cs -> tag ∈ get_tags (run_setters cs f))
  /\ (forall tag, add_tag tag (add_tag tag f) = add_tag tag f)
  /\ (forall a b, add_tag a (add_tag b f) = add_tag b (add_tag a f)).
Proof.
  unfold get_tags, run_setters.
  assert (Hgrow : forall cs f, f_tags f ⊆ f_tags (fold_left (fun f c => run_setter c f) cs f)).
  { clear. induction cs as [|c cs IH]; intros f; [reflexivity|].
    cbn [fold_left]. etransitivity; [apply run_setter_tags|apply IH]. }
  split; [apply Hgrow|]. split.
  - revert f. induction cs as [|c cs IH]; intros f tag Hin.
    + apply elem_of_nil in Hin. contradiction.
    + cbn [fold_left]. apply elem_of_cons in Hin as [<-|Hin].
      * apply Hgrow. apply (proj2 (run_setter_tags _ f)). reflexivity.
      * apply IH. exact Hin.
  - split.
    + intros tag. unfold add_tag, with_tags. cbn. f_equal.
      apply set_eq. intros x. rewrite !elem_of_union. tauto.
    + intros a b. unfold add_tag, with_tags. cbn. f_equal.
      apply set_eq. intros x. rewrite !elem_of_union. tauto.
Qed.

Lemma tags_only_grow_witness :
  "b" ∈ get_tags (run_setters [call_add_tag "a"; call_add_tag "b"; call_set_priority 7]
                    default_flag).
Proof.
  apply (proj1 (proj2 (tags_only_grow _ default_flag))).
  apply elem_of_cons. right. apply elem_of_cons. left. reflexivity.
Defined.

(** X6.  Once [get_filename] has returned a name, the object gives that
    name again whatever happens next: after any sequence of setter calls,
    with any fuel and in any state of the process, the static empty or
    changed, and without touching the process. *)
Theorem get_filename_stays (this : flag) (fuel : nat) (w : world) (fn : string)
    (this' : flag) (w' : world) :
  get_filename this fuel w = Ret (fn, this') w' ->
  forall (cs : list setter_call) (fuel2 : nat) (w2 : world),
    get_filename (run_setters cs this') fuel2 w2
    = Ret (fn, run_setters cs this') w2.
Proof.
  intros H cs fuel2 w2.
  apply get_filename_ret in H as (_ & Hfn & -> & _).
  pose proof (run_setters_filename cs (with_filename fn this)) as Hkeep.
  cbn [f_filename with_filename] in Hkeep.
  pose proof (get_filename_memoized (run_setters cs (with_filename fn this)) fuel2 w2) as Hm.
  rewrite Hkeep in Hm. apply Hm. exact Hfn.
Qed.

Lemma get_filename_stays_witness :
  get_filename
    (run_setters [call_set_message "m"] (with_filename sample_flag_file sample_flag))
    0%nat (initial_world ∅ ∅ ∅ 0 "" "" ("", 0))
  = Ret (sample_flag_file,
         run_setters [call_set_message "m"] (with_filename sample_flag_file sample_flag))
        (initial_world ∅ ∅ ∅ 0 "" "" ("", 0)).
Proof.
  apply (get_filename_stays sample_flag 0%nat (sample_world ∅) sample_flag_file
           (with_filename sample_flag_file sample_flag) (sample_world ∅)).
  reflexivity.
Defined.

(** ** The file-loading constructor, read backwards *)

Lemma bind_raise_inv {A B : Type} (m : M A) (k : A -> M B) fuel w e w' :
  bind m k fuel w = Raise e w' ->
  m fuel w = Raise e w'
  \/ exists a w1, m fuel w = Ret a w1 /\ k a fuel w1 = Raise e w'.
Proof.
  unfold bind. destruct (m fuel w) as [a w1|e1 w1|]; [eauto| |discriminate].
  intros [= <- <-]. left. reflexivity.
Qed.

Lemma bind_out_of_fuel_inv {A B : Type} (m : M A) (k : A -> M B) fuel w :
  bind m k fuel w = OutOfFuel ->
  m fuel w = OutOfFuel
  \/ exists a w1, m fuel w = Ret a w1 /\ k a fuel w1 = OutOfFuel.
Proof.
  unfold bind. destruct (m fuel w) as [a w1|e1 w1|]; [eauto|discriminate|auto].
Qed.

Lemma load_field_raise_inv {A : Type} file name (conv : string -> except A) store
    this fuel w e w' :
  load_field file name conv store this fuel w = Raise e w' ->
  w' = w /\ has_parameter file name = true
  /\ conv (get_parameter file name) = Throw e.
Proof.
  unfold load_field. destruct (has_parameter file name); [|discriminate].
  unfold bind, lift. destruct (conv (get_parameter file name)) as [v|e1];
    cbn; [discriminate|].
  intros [= <- <-]. auto.
Qed.

Lemma load_field_returns_or_raises {A : Type} file name (conv : string -> except A)
    store this fuel w :
  load_field file name conv store this fuel w <> OutOfFuel.
Proof.
  unfold load_field. destruct (has_parameter file name); [|discriminate].
  unfold bind, lift. destruct (conv (get_parameter file name)); discriminate.
Qed.

Lemma stol_throws (s : string) (e : exn) :
  stol s = Throw e -> e = std_invalid_argument \/ e = std_out_of_range.
Proof.
  unfold stol.
  destruct (match skip_space s with
            | String c r => if is_dash c then (true, r)
                            else if (code c =? 43)%N then (false, r)
                            else (false, skip_space s)
            | EmptyString => (false, skip_space s)
            end) as [negative s2].
  destruct (starts_with_digit s2); [|intros [= <-]; auto].
  match goal with
  | |- context [if ?c then _ else _] => destruct c
  end; [discriminate|intros [= <-]; auto].
Qed.

Lemma stol_int_throw (s : string) (e : exn) :
  stol_int s = Throw e -> stol s = Throw e.
Proof. unfold stol_int. destruct (stol s); [discriminate|auto]. Qed.

Lemma stol_int_ok (s : string) (v : Z) :
  stol_int s = Ok v -> exists n, stol s = Ok n /\ v = wrap32 n.
Proof. unfold stol_int. destruct (stol s) as [n|]; [|discriminate]. intros [= <-]. eauto. Qed.

Lemma stored_of_parameter w filename name text :
  has_parameter (conf_file_of w filename) name = true ->
  get_parameter (conf_file_of w filename) name = text ->
  stored_field w filename name = Some text.
Proof.
  intros Hhas Hget. apply has_parameter_lookup in Hhas as [v Hv].
  rewrite (get_parameter_lookup _ _ _ Hv) in Hget. subst v.
  rewrite <- conf_file_of_parameters. exact Hv.
Qed.

Lemma stored_none_of_parameter w filename name :
  has_parameter (conf_file_of w filename) name = false ->
  stored_field w filename name = None.
Proof.
  intros H. apply has_parameter_none in H. rewrite <- conf_file_of_parameters. exact H.
Qed.

Lemma mandatory_present w filename :
  negb (has_parameter (conf_file_of w filename) "unit")
  || negb (has_parameter (conf_file_of w filename) "section")
  || negb (has_parameter (conf_file_of w filename) "name")
  || negb (has_parameter (conf_file_of w filename) "message") = false ->
  stored_field w filename "unit"
    = Some (get_parameter (conf_file_of w filename) "unit")
  /\ stored_field w filename "section"
     = Some (get_parameter (conf_file_of w filename) "section")
  /\ stored_field w filename "name"
     = Some (get_parameter (conf_file_of w filename) "name")
  /\ stored_field w filename "message"
     = Some (get_parameter (conf_file_of w filename) "message").
Proof.
  intros H. repeat (apply orb_false_iff in H as [H ?]).
  repeat match goal with
    | Hx : negb _ = false |- _ => apply negb_false_iff in Hx
    end.
  repeat split; apply stored_of_parameter; auto.
Qed.

Lemma mandatory_missing w filename :
  negb (has_parameter (conf_file_of w filename) "unit")
  || negb (has_parameter (conf_file_of w filename) "section")
  || negb (has_parameter (conf_file_of w filename) "name")
  || negb (has_parameter (conf_file_of w filename) "message") = true ->
  stored_field w filename "unit" = None
  \/ stored_field w filename "section" = None
  \/ stored_field w filename "name" = None
  \/ stored_field w filename "message" = None.
Proof.
  intros H.
  repeat (apply orb_true_iff in H as [H|H]);
    apply negb_true_iff, stored_none_of_parameter in H; auto.
Qed.

(** Carries a field through the steps of the constructor that leave it
    alone. *)
Ltac through_steps proj :=
  repeat match goal with
    | H : load_field _ _ _ _ ?t _ _ = Ret ?t' _ |- context [proj ?t'] =>
        rewrite (load_field_frame proj _ _ _ _ _ _ _ _ _ H (fun _ _ => eq_refl))
    | |- context [proj (with_message ?m ?t)] =>
        change (proj (with_message m t)) with (proj t)
    end.

(** The step of the constructor that reads the field behind [proj]. *)
Ltac own_step H :=
  let Hno := fresh "Hno" in
  let Hyes := fresh "Hyes" in
  let Hv := fresh "Hv" in
  let v := fresh "v" in
  pose proof (proj2 (load_field_inv _ _ _ _ _ _ _ _ _ H))
    as [[Hno ->]|(v & Hyes & Hv & ->)];
  [apply stored_none_of_parameter in Hno; rewrite Hno
  |rewrite (stored_of_parameter _ _ _ _ Hyes eq_refl)].

(** What the file-loading constructor has done when it returns. *)
Lemma flag_from_file_ret (filename : string) (fuel : nat) (w : world)
    (f : flag) (w' : world) :
  flag_from_file filename fuel w = Ret f w' ->
  w' = w /\ filename <> "" /\ f_filename f = filename /\ get_state f = STATE_UP
  /\ stored_field w filename "unit" = Some (get_unit f)
  /\ stored_field w filename "section" = Some (get_section f)
  /\ stored_field w filename "name" = Some (get_name f)
  /\ stored_field w filename "message" = Some (get_message f)
  /\ get_source_file f = default "" (stored_field w filename "source_file")
  /\ get_function f = default "" (stored_field w filename "function")
  /\ get_hostname f = default "" (stored_field w filename "hostname")
  /\ get_version f = default "" (stored_field w filename "version")
  /\ get_manual_down f
     = match stored_field w filename "manual_down" with
       | Some text => String.eqb text "yes"
       | None => false
       end
  /\ loaded_number (stored_field w filename "line") wrap32 0 (get_line f)
  /\ loaded_number (stored_field w filename "priority") wrap32 5 (get_priority f)
  /\ loaded_number (stored_field w filename "count") wrap32 0 (get_count f)
  /\ loaded_number (stored_field w filename "date") id (-1) (get_date f)
  /\ loaded_number (stored_field w filename "modified") id (-1) (get_modified f)
  /\ get_tags f
     = match stored_field w filename "tags" with
       | Some text => list_to_set (tokenize_string text "," true tag_white_space)
       | None => ∅
       end.
Proof.
  intros H. destruct (string_dec filename "") as [->|Hfn]; [discriminate|].
  rewrite (flag_from_file_unfold _ _ _ Hfn) in H. cbv zeta in H.
  match type of H with (if ?c then _ else _) _ _ = _ => destruct c eqn:Hmand end;
    [discriminate|].
  apply mandatory_present in Hmand as (Hu & Hs & Hn & Hm).
  load_step H t1 H1. load_step H t2 H2. load_step H t3 H3.
  load_step H t4 H4. load_step H t5 H5. load_step H t6 H6.
  load_step H t7 H7. load_step H t8 H8. load_step H t9 H9.
  load_step H t10 H10. load_step H t11 H11.
  injection H as -> ->.
  unfold get_state, get_unit, get_section, get_name, get_message, get_source_file,
    get_function, get_hostname, get_version, get_manual_down, get_line,
    get_priority, get_count, get_date, get_modified, get_tags, loaded_number.
  split; [reflexivity|]. split; [exact Hfn|].
  split; [through_steps f_filename; reflexivity|].
  split; [through_steps f_state; reflexivity|].
  split; [through_steps f_unit; exact Hu|].
  split; [through_steps f_section; exact Hs|].
  split; [through_steps f_name; exact Hn|].
  split; [through_steps f_message; exact Hm|].
  split; [through_steps f_source_file; own_step H1;
          [reflexivity|injection Hv as <-; reflexivity]|].
  split; [through_steps f_function; own_step H2; through_steps f_function;
          [reflexivity|injection Hv as <-; reflexivity]|].
  split; [through_steps f_hostname; own_step H9; through_steps f_hostname;
          [reflexivity|injection Hv as <-; reflexivity]|].
  split; [through_steps f_version; own_step H11; through_steps f_version;
          [reflexivity|injection Hv as <-; reflexivity]|].
  split; [through_steps f_manual_down; own_step H5; through_steps f_manual_down;
          [reflexivity|injection Hv as <-; reflexivity]|].
  split; [through_steps f_line; own_step H3; through_steps f_line;
          [reflexivity|apply stol_int_ok in Hv; exact Hv]|].
  split; [through_steps f_priority; own_step H4; through_steps f_priority;
          [reflexivity|apply stol_int_ok in Hv; exact Hv]|].
  split; [through_steps f_count; own_step H10; through_steps f_count;
          [reflexivity|apply stol_int_ok in Hv; exact Hv]|].
  split; [through_steps f_date; own_step H6; through_steps f_date;
          [reflexivity|eauto]|].
  split; [through_steps f_modified; own_step H7; through_steps f_modified;
          [reflexivity|eauto]|].
  through_steps f_tags; own_step H8; through_steps f_tags;
    [reflexivity|].
  injection Hv as <-. cbn [f_tags with_tags]. through_steps f_tags.
  cbn [f_tags with_message with_name with_section with_unit with_filename
       default_flag].
  apply (right_id_L ∅ (∪)).
Qed.

(** X7.  A flag returned by the file-loading constructor is the record
    read field by field: the file name is the one given and is not empty,
    the process is left as it was, unit, section, name and message are the
    texts of the record, taken as they are, the other text fields are the
    texts of the record or empty, manual-down is set exactly when the
    record says [yes], each number is the one [std::stol] reads in the
    record or the initial value of the member, the tags are the pieces of
    the [tags] text, and the state is UP. *)
Theorem flag_from_file_reads_record (filename : string) (fuel : nat) (w : world)
    (f : flag) (w' : world) :
  flag_from_file filename fuel w = Ret f w' ->
  w' = w /\ filename <> "" /\ f_filename f = filename /\ get_state f = STATE_UP
  /\ stored_field w filename "unit" = Some (get_unit f)
  /\ stored_field w filename "section" = Some (get_section f)
  /\ stored_field w filename "name" = Some (get_name f)
  /\ stored_field w filename "message" = Some (get_message f)
  /\ get_source_file f = default "" (stored_field w filename "source_file")
  /\ get_function f = default "" (stored_field w filename "function")
  /\ get_hostname f = default "" (stored_field w filename "hostname")
  /\ get_version f = default "" (stored_field w filename "version")
  /\ get_manual_down f
     = match stored_field w filename "manual_down" with
       | Some text => String.eqb text "yes"
       | None => false
       end
  /\ loaded_number (stored_field w filename "line") wrap32 0 (get_line f)
  /\ loaded_number (stored_field w filename "priority") wrap32 5 (get_priority f)
  /\ loaded_number (stored_field w filename "count") wrap32 0 (get_count f)
  /\ loaded_number (stored_field w filename "date") id (-1) (get_date f)
  /\ loaded_number (stored_field w filename "modified") id (-1) (get_modified f)
  /\ get_tags f
     = match stored_field w filename "tags" with
       | Some text => list_to_set (tokenize_string text "," true tag_white_space)
       | None => ∅
       end.
Proof. apply flag_from_file_ret. Qed.

Lemma flag_from_file_reads_record_witness :
  stored_field (sample_world record_with_priority_250) "/flags/a_b_c.flag" "unit"
  = Some "a".
Proof.
  apply (flag_from_file_reads_record "/flags/a_b_c.flag" 0%nat
           (sample_world record_with_priority_250)
           (mk_flag STATE_UP "a" "b" "c" "/flags/a_b_c.flag" "" "" 0 "m" 250
              false (-1) (-1) ∅ "" 0 "")
           (sample_world record_with_priority_250)).
  vm_compute. reflexivity.
Defined.

(** One step of the constructor on the way to an exception: either the
    step throws, or it returns and the exception comes later. *)
Ltac raise_step H t Ht Hhas Hconv :=
  apply bind_raise_inv in H as [H | (t & ? & Ht & H)];
  [apply load_field_raise_inv in H as (-> & Hhas & Hconv)
  |cbv beta zeta in H;
   let E := fresh in
   pose proof (proj1 (load_field_inv _ _ _ _ _ _ _ _ _ Ht)) as E; subst].

Ltac out_of_fuel_step H t Ht :=
  apply bind_out_of_fuel_inv in H as [H | (t & ? & Ht & H)];
  [exact (load_field_returns_or_raises _ _ _ _ _ _ _ H)
  |cbv beta zeta in H].

(** What the file-loading constructor has done when it does not return. *)
Lemma flag_from_file_not_ret (filename : string) (fuel : nat) (w : world) :
  flag_from_file filename fuel w <> OutOfFuel
  /\ forall e w',
       flag_from_file filename fuel w = Raise e w' ->
       w' = w
       /\ ((filename = "" /\ e = invalid_parameter msg_no_filename)
           \/ (filename <> "" /\ e = invalid_parameter msg_missing_field
               /\ (stored_field w filename "unit" = None
                   \/ stored_field w filename "section" = None
                   \/ stored_field w filename "name" = None
                   \/ stored_field w filename "message" = None))
           \/ (filename <> "" /\ (e = std_invalid_argument \/ e = std_out_of_range)
               /\ exists field text,
                    field ∈ numeric_fields
                    /\ stored_field w filename field = Some text
                    /\ stol text = Throw e)).
Proof.
  destruct (string_dec filename "") as [->|Hfn].
  { split; [discriminate|]. intros e w' [= <- <-]. auto. }
  rewrite (flag_from_file_unfold _ _ _ Hfn). cbv zeta.
  match goal with |- context [if ?c then _ else _] => destruct c eqn:Hmand end.
  { split; [discriminate|]. intros e w' [= <- <-]. split; [reflexivity|].
    right. left. split; [exact Hfn|]. split; [reflexivity|].
    apply mandatory_missing. exact Hmand. }
  assert (Hnum : forall field e,
            field ∈ numeric_fields ->
            has_parameter (conf_file_of w filename) field = true ->
            stol (get_parameter (conf_file_of w filename) field) = Throw e ->
            w = w
            /\ ((filename = "" /\ e = invalid_parameter msg_no_filename)
                \/ (filename <> "" /\ e = invalid_parameter msg_missing_field
                    /\ (stored_field w filename "unit" = None
                        \/ stored_field w filename "section" = None
                        \/ stored_field w filename "name" = None
                        \/ stored_field w filename "message" = None))
                \/ (filename <> "" /\ (e = std_invalid_argument \/ e = std_out_of_range)
                    /\ exists field text,
                         field ∈ numeric_fields
                         /\ stored_field w filename field = Some text
                         /\ stol text = Throw e))).
  { intros field e Hin Hhas Hconv. split; [reflexivity|]. right. right.
    split; [exact Hfn|]. split; [exact (stol_throws _ _ Hconv)|].
    exists field, (get_parameter (conf_file_of w filename) field).
    split; [exact Hin|]. split; [|exact Hconv].
    apply stored_of_parameter; [exact Hhas|reflexivity]. }
  assert (Hin : forall field, In field numeric_fields -> field ∈ numeric_fields).
  { intros field H. apply list_elem_of_In. exact H. }
  split.
  - intros H.
    out_of_fuel_step H t1 H1. out_of_fuel_step H t2 H2. out_of_fuel_step H t3 H3.
    out_of_fuel_step H t4 H4. out_of_fuel_step H t5 H5. out_of_fuel_step H t6 H6.
    out_of_fuel_step H t7 H7. out_of_fuel_step H t8 H8. out_of_fuel_step H t9 H9.
    out_of_fuel_step H t10 H10. out_of_fuel_step H t11 H11.
    discriminate H.
  - intros e w' H.
    raise_step H t1 H1 Hhas Hconv; [discriminate Hconv|].
    raise_step H t2 H2 Hhas Hconv; [discriminate Hconv|].
    raise_step H t3 H3 Hhas Hconv.
    { apply stol_int_throw in Hconv.
      apply (Hnum "line"); [apply Hin; cbn; auto|assumption..]. }
    raise_step H t4 H4 Hhas Hconv.
    { apply stol_int_throw in Hconv.
      apply (Hnum "priority"); [apply Hin; cbn; auto|assumption..]. }
    raise_step H t5 H5 Hhas Hconv; [discriminate Hconv|].
    raise_step H t6 H6 Hhas Hconv.
    { apply (Hnum "date"); [apply Hin; cbn; auto|assumption..]. }
    raise_step H t7 H7 Hhas Hconv.
    { apply (Hnum "modified"); [apply Hin; cbn; auto|assumption..]. }
    raise_step H t8 H8 Hhas Hconv; [discriminate Hconv|].
    raise_step H t9 H9 Hhas Hconv; [discriminate Hconv|].
    raise_step H t10 H10 Hhas Hconv.
    { apply stol_int_throw in Hconv.
      apply (Hnum "count"); [apply Hin; cbn; auto 6|assumption..]. }
    raise_step H t11 H11 Hhas Hconv; [discriminate Hconv|].
    discriminate H.
Qed.

(** X8.  The file-loading constructor returns or throws with any fuel: it
    never looks the directory up.  When it throws, the process is left as
    it was and the exception is one of three: [invalid_parameter] for an
    empty file name, [invalid_parameter] for a record in which unit,
    section, name or message is missing (a file that does not exist is such
    a record), or the exception of [std::stol] on one of the fields line,
    priority, date, modified and count.  It never throws [invalid_name]:
    the names of a record are not validated. *)
Theorem flag_from_file_failures (filename : string) (fuel : nat) (w : world) :
  flag_from_file filename fuel w <> OutOfFuel
  /\ forall e w',
       flag_from_file filename fuel w = Raise e w' ->
       w' = w
       /\ ((filename = "" /\ e = invalid_parameter msg_no_filename)
           \/ (filename <> "" /\ e = invalid_parameter msg_missing_field
               /\ (stored_field w filename "unit" = None
                   \/ stored_field w filename "section" = None
                   \/ stored_field w filename "name" = None
                   \/ stored_field w filename "message" = None))
           \/ (filename <> "" /\ (e = std_invalid_argument \/ e = std_out_of_range)
               /\ exists field text,
                    field ∈ numeric_fields
                    /\ stored_field w filename field = Some text
                    /\ stol text = Throw e)).
Proof. apply flag_from_file_not_ret. Qed.

Lemma flag_from_file_failures_witness :
  sample_world one_bad_record = sample_world one_bad_record.
Proof.
  apply (proj2 (flag_from_file_failures "/flags/a_b_bad.flag" 0%nat
                  (sample_world one_bad_record))
           (invalid_parameter msg_missing_field)).
  vm_compute. reflexivity.
Defined.

(** ** The tags of a loaded flag *)

Lemma split_tokens_no_delimiter (delimiters s : string) :
  Forall (fun t => all_chars (fun c => negb (in_chars c delimiters)) t = true)
         (split_tokens delimiters s).
Proof.
  induction s as [|c r IH]; cbn [split_tokens].
  - repeat constructor.
  - destruct (in_chars c delimiters) eqn:Hc.
    + constructor; [reflexivity|exact IH].
    + destruct (split_tokens delimiters r) as [|t ts].
      * repeat constructor. cbn [all_chars]. rewrite Hc. reflexivity.
      * inversion IH as [|? ? Ht Hts]; subst. constructor; [|exact Hts].
        cbn [all_chars]. rewrite Hc, Ht. reflexivity.
Qed.

Lemma all_chars_trim_left (p : ascii -> bool) (set t : string) :
  all_chars p t = true -> all_chars p (trim_left set t) = true.
Proof.
  induction t as [|c r IH]; [auto|]. cbn [trim_left].
  destruct (in_chars c set); [|auto].
  cbn [all_chars]. intros H. apply andb_true_iff in H as [_ H]. auto.
Qed.

Lemma all_chars_trim_right (p : ascii -> bool) (set t : string) :
  all_chars p t = true -> all_chars p (trim_right set t) = true.
Proof.
  induction t as [|c r IH]; [auto|]. cbn [trim_right all_chars].
  intros H. apply andb_true_iff in H as [Hc Hr].
  destruct (string_empty (trim_right set r) && in_chars c set); [reflexivity|].
  cbn [all_chars]. rewrite Hc, (IH Hr). reflexivity.
Qed.

Lemma trim_left_starts (set t : string) :
  trim_left set t = "" \/ starts_without set (trim_left set t) = true.
Proof.
  induction t as [|c r IH]; [auto|]. cbn [trim_left].
  destruct (in_chars c set) eqn:Hc; [exact IH|].
  right. cbn [starts_without]. rewrite Hc. reflexivity.
Qed.

Lemma trim_right_ends (set t : string) :
  trim_right set t = "" \/ ends_without set (trim_right set t) = true.
Proof.
  induction t as [|c r IH]; [auto|]. cbn [trim_right].
  destruct (trim_right set r) as [|c' r'] eqn:Hr; cbn [string_empty andb].
  - destruct (in_chars c set) eqn:Hc; [auto|].
    right. cbn [ends_without]. rewrite Hc. reflexivity.
  - right. destruct IH as [IH|IH]; [discriminate|exact IH].
Qed.

Lemma trim_right_starts (set t : string) :
  starts_without set t = true -> starts_without set (trim_right set t) = true.
Proof.
  destruct t as [|c r]; [discriminate|]. cbn [starts_without trim_right].
  intros H. apply negb_true_iff in H. rewrite H, andb_false_r.
  cbn [starts_without]. rewrite H. reflexivity.
Qed.

(** Every piece that [tokenize_string] hands to the constructor is a clean
    tag. *)
Lemma tokens_are_clean (s t : string) :
  t ∈ tokenize_string s "," true tag_white_space -> clean_tag t.
Proof.
  unfold tokenize_string. intros H.
  apply list_elem_of_filter in H as [Hne H].
  apply list_elem_of_In, in_map_iff in H as (t0 & <- & H0).
  pose proof (split_tokens_no_delimiter "," s) as Hall.
  rewrite Forall_forall in Hall. apply list_elem_of_In in H0.
  specialize (Hall _ H0). cbv beta in Hall.
  rewrite orb_false_r in Hne. apply negb_true_iff in Hne.
  split; [apply all_chars_trim_right, all_chars_trim_left, Hall|].
  destruct (trim_left_starts tag_white_space t0) as [E|Hs].
  { rewrite E in Hne. discriminate Hne. }
  split; [apply trim_right_starts, Hs|].
  destruct (trim_right_ends tag_white_space (trim_left tag_white_space t0))
    as [E|He]; [|exact He].
  rewrite E in Hne. discriminate Hne.
Qed.

Lemma wrap32_range (z : Z) : INT_MIN <= wrap32 z <= INT_MAX.
Proof.
  unfold wrap32, wrap, INT_MIN, INT_MAX.
  pose proof (Z.mod_pos_bound (z + 2 ^ (32 - 1)) (2 ^ 32) ltac:(lia)). lia.
Qed.

Lemma loaded_number_int (stored : option string) (initial got : Z) :
  INT_MIN <= initial <= INT_MAX ->
  loaded_number stored wrap32 initial got -> INT_MIN <= got <= INT_MAX.
Proof.
  unfold loaded_number. intros Hi H. destruct stored as [text|].
  - destruct H as (n & _ & ->). apply wrap32_range.
  - subst got. exact Hi.
Qed.

Lemma loaded_number_parses (stored : option string) (narrow : Z -> Z)
    (initial got : Z) :
  loaded_number stored narrow initial got ->
  forall text, stored = Some text -> exists n, stol text = Ok n.
Proof.
  unfold loaded_number. intros H text ->. destruct H as (n & Hn & _). eauto.
Qed.

Lemma flag_from_file_tags_clean (filename : string) (fuel : nat) (w : world)
    (f : flag) (w' : world) :
  flag_from_file filename fuel w = Ret f w' ->
  forall t, t ∈ get_tags f -> clean_tag t.
Proof.
  intros H t Ht.
  apply flag_from_file_ret in H.
  destruct H as (_&_&_&_&_&_&_&_&_&_&_&_&_&_&_&_&_&_&H). rewrite H in Ht.
  destruct (stored_field w filename "tags") as [text|].
  - apply elem_of_list_to_set in Ht. apply (tokens_are_clean text). exact Ht.
  - apply not_elem_of_empty in Ht. contradiction.
Qed.

(** X9.  The tags of a flag returned by the file-loading constructor are
    all clean: none is empty, none holds a comma, none starts or ends with
    white space.  Whatever the [tags] text of the record is, [save] writes
    such tags back as they are. *)
Theorem loaded_tags_are_clean (filename : string) (fuel : nat) (w : world)
    (f : flag) (w' : world) :
  flag_from_file filename fuel w = Ret f w' ->
  forall t, t ∈ get_tags f -> clean_tag t.
Proof. apply flag_from_file_tags_clean. Qed.

(** X10.  A flag loaded from its record and saved back comes out of the
    file again with the same unit, section, name, message, priority,
    manual-down mark and tags, for every record that loads, when the system
    accepts the write and the clock is a [time_t]; host name and version
    are then those of the saving process. *)
Theorem reload_is_stable (filename : string) (fuel : nat) (w : world) (f : flag) :
  flag_from_file filename fuel w = Ret f w ->
  filename ∉ refused w ->
  LONG_MIN <= clock w <= LONG_MAX ->
  exists w1 g,
    save f fuel w = Ret (true, f) w1
    /\ flag_from_file filename fuel w1 = Ret g w1
    /\ get_unit g = get_unit f
    /\ get_section g = get_section f
    /\ get_name g = get_name f
    /\ get_message g = get_message f
    /\ get_priority g = get_priority f
    /\ get_manual_down g = get_manual_down f
    /\ get_tags g = get_tags f
    /\ get_hostname g = hostname w
    /\ get_version g = version_string w.
Proof.
  intros H Hfree Hclock.
  pose proof (flag_from_file_tags_clean _ _ _ _ _ H) as Htags.
  pose proof (flag_from_file_ret _ _ _ _ _ H)
    as (_ & Hfn & Hname & Hstate & _ & _ & _ & _ & _ & _ & _ & _ & _
        & Hline & Hprio & Hcount & Hdate & _).
  assert (Hget : get_filename f fuel w = Ret (filename, f) w).
  { pose proof (get_filename_memoized f fuel w) as Hm.
    rewrite Hname in Hm. apply Hm. exact Hfn. }
  apply (save_then_load_round_trip f fuel w filename f); try assumption.
  - exact (loaded_number_parses _ _ _ _ Hcount).
  - exact (loaded_number_parses _ _ _ _ Hdate).
  - apply (loaded_number_int _ 0 _ ltac:(unfold INT_MIN, INT_MAX; lia) Hline).
  - apply (loaded_number_int _ 5 _ ltac:(unfold INT_MIN, INT_MAX; lia) Hprio).
Qed.

Lemma reload_is_stable_witness :
  exists w1 g,
    save (mk_flag STATE_UP "a" "b" "c" "/flags/a_b_c.flag" "" "" 0 "m" 5
            false (-1) (-1) ∅ "" 0 "") 0%nat (sample_world record_a_b_c)
    = Ret (true, mk_flag STATE_UP "a" "b" "c" "/flags/a_b_c.flag" "" "" 0 "m" 5
                   false (-1) (-1) ∅ "" 0 "") w1
    /\ flag_from_file "/flags/a_b_c.flag" 0%nat w1 = Ret g w1
    /\ get_unit g = "a".
Proof.
  destruct (reload_is_stable "/flags/a_b_c.flag" 0%nat (sample_world record_a_b_c)
              (mk_flag STATE_UP "a" "b" "c" "/flags/a_b_c.flag" "" "" 0 "m" 5
                 false (-1) (-1) ∅ "" 0 ""))
    as (w1 & g & Hsave & Hload & Hunit & _).
  - vm_compute. reflexivity.
  - cbn. set_solver.
  - vm_compute. split; discriminate.
  - exists w1, g. split; [exact Hsave|]. split; [exact Hload|exact Hunit].
Defined.

Lemma loaded_tags_are_clean_witness : clean_tag "x".
Proof.
  apply (loaded_tags_are_clean "/flags/t.flag" 0%nat
           (sample_world {[ "/flags/t.flag" :=
                              sample_record "a" "b" "c" "m" [("tags", " x ,,y")] ]})
           (mk_flag STATE_UP "a" "b" "c" "/flags/t.flag" "" "" 0 "m" 5
              false (-1) (-1) {[ "x"; "y" ]} "" 0 "")
           (sample_world {[ "/flags/t.flag" :=
                              sample_record "a" "b" "c" "m" [("tags", " x ,,y")] ]})).
  - vm_compute. reflexivity.
  - apply elem_of_union. left. apply elem_of_singleton. reflexivity.
Defined.

(** ** [save], in every case *)

(** What [save] does of a flag that is UP once the file name is known: it
    throws when the count of the record is not a number, returns false
    when the system refuses the write, and otherwise writes the record. *)
Lemma save_up_cases this fuel w fn this' :
  f_state this = STATE_UP ->
  get_filename this fuel w = Ret (fn, this') w ->
  save this fuel w
  = match match stored_field w fn "count" with
          | Some text => match stol text with
                         | Ok _ => None
                         | Throw e => Some e
                         end
          | None => None
          end with
    | Some e => Raise e w
    | None =>
        if bool_decide (fn ∈ refused w) then Ret (false, this') w
        else Ret (true, this') (after_write this' w fn)
    end.
Proof.
  intros Hstate Hget.
  pose proof (get_filename_state _ _ _ _ _ _ Hget) as Hstate'.
  rewrite Hstate in Hstate'.
  pose proof (get_filename_ret _ _ _ _ _ _ Hget) as (_ & Hfn & _ & _).
  unfold save. rewrite (bind_of_ret _ _ _ _ _ _ Hget). cbv beta iota.
  apply string_empty_false in Hfn. rewrite Hfn, Hstate'.
  unfold bind, get_conf_file, time, gethostname, gets. cbv beta iota.
  rewrite !exists_has_parameter, !bool_decide_is_Some.
  unfold after_write, written_parameters. rewrite !old_lookup.
  assert (Hsave : forall file, cf_filename file = fn ->
    save_configuration file ".bak" true fuel w
    = if bool_decide (fn ∈ refused w) then Ret false w
      else Ret true (with_files (<[fn := cf_parameters file]>
        (match files w !! fn with
         | Some old => <[fn ++ ".bak" := old]> (files w)
         | None => files w
         end)) w)).
  { intros file Hfile. unfold save_configuration. rewrite Hfile. cbn [orb].
    reflexivity. }
  assert (Hname : cf_filename (conf_file_of w fn) = fn).
  { unfold conf_file_of. destruct (files w !! fn); reflexivity. }
  destruct (stored_field w fn "date") as [date|] eqn:Hdate;
    destruct (stored_field w fn "count") as [text|] eqn:Hcnt;
    cbv beta iota; cbn [negb].
  all: try (unfold get_parameter; rewrite !cf_parameters_set;
            rewrite !lookup_insert_ne by discriminate;
            rewrite conf_file_of_parameters, Hcnt; cbn [default from_option id];
            destruct (stol text) as [n|e]; cbn [lift]; [|reflexivity]).
  all: unfold ret; cbv beta iota;
    rewrite Hsave by (rewrite !cf_filename_set; exact Hname).
  all: rewrite !cf_parameters_set, conf_file_of_old;
    destruct (bool_decide (fn ∈ refused w)); reflexivity.
Qed.

Lemma save_outcomes this fuel w :
  (exists fn this',
      get_filename this fuel w = Ret (fn, this') w /\ fn <> ""
      /\ this' = with_filename fn this)
  \/ save this fuel w = OutOfFuel.
Proof.
  destruct (get_filename this fuel w) as [[fn this'] w1|e w1|] eqn:Hget.
  - left. pose proof (get_filename_ret _ _ _ _ _ _ Hget) as (-> & Hfn & Hthis & _).
    eauto.
  - exfalso. exact (get_filename_no_raise _ _ _ _ _ Hget).
  - right. unfold save. apply bind_of_out_of_fuel. exact Hget.
Qed.

Lemma backup_name_differs (fn : string) : fn ++ ".bak" <> fn.
Proof.
  induction fn as [|c fn IH]; norm_append; [discriminate|].
  intros [= H]. exact (IH H).
Qed.






(** ** What [save] leaves on disk *)

Lemma save_up_true this fuel w this' w' :
  get_state this = STATE_UP ->
  save this fuel w = Ret (true, this') w' ->
  f_filename this' <> "" /\ w' = after_write this' w (f_filename this').
Proof.
  unfold get_state. intros Hstate H.
  destruct (save_outcomes this fuel w) as [(fn & t & Hget & Hfn & Hthis)|Hoof];
    [|rewrite Hoof in H; discriminate].
  rewrite (save_up_cases _ _ _ _ _ Hstate Hget) in H.
  assert (Hname : f_filename t = fn) by (rewrite Hthis; reflexivity).
  assert (Hend : (if bool_decide (fn ∈ refused w) then Ret (false, t) w
                  else Ret (true, t) (after_write t w fn))
                 = Ret (true, this') w' ->
                 f_filename this' <> "" /\ w' = after_write this' w (f_filename this')).
  { destruct (bool_decide (fn ∈ refused w)); intros [= <- <-].
    rewrite Hname. split; [exact Hfn|reflexivity]. }
  destruct (stored_field w fn "count") as [text|];
    [destruct (stol text)|]; try discriminate; exact (Hend H).
Qed.

Lemma written_foreign this w old (key : string) :
  key ∉ record_keys -> written_parameters this w old !! key = old !! key.
Proof.
  intros Hkey. unfold record_keys in Hkey.
  rewrite !not_elem_of_cons in Hkey.
  destruct Hkey as (?&?&?&?&?&?&?&?&?&?&?&?&?&?&?&_).
  unfold written_parameters. cbv zeta.
  destruct (old !! "date"); rewrite !lookup_insert_ne by congruence; reflexivity.
Qed.

Lemma written_known this w old (key : string) :
  key ∈ record_keys -> is_Some (written_parameters this w old !! key).
Proof.
  intros Hkey. unfold record_keys in Hkey.
  repeat (apply elem_of_cons in Hkey as [->|Hkey]);
    [..|apply elem_of_nil in Hkey; contradiction].
  - rewrite written_unit; eauto.
  - rewrite written_section; eauto.
  - rewrite written_name; eauto.
  - rewrite written_source_file; eauto.
  - rewrite written_function; eauto.
  - rewrite written_line; eauto.
  - rewrite written_message; eauto.
  - rewrite written_priority; eauto.
  - rewrite written_manual_down; eauto.
  - rewrite written_date; eauto.
  - rewrite written_modified; eauto.
  - rewrite written_tags; eauto.
  - rewrite written_hostname; eauto.
  - rewrite written_version; eauto.
  - rewrite written_count; eauto.
Qed.

(** X13.  A raise that [save] reports as written changes the files only,
    and two of them at most: the record itself and its backup.  The
    backup holds the record as it was before the call; when there was no
    record the backup is not touched.  Every other file is as before. *)
Theorem save_up_backs_up (this : flag) (fuel : nat) (w : world)
    (this' : flag) (w' : world) :
  get_state this = STATE_UP ->
  save this fuel w = Ret (true, this') w' ->
  let fn := f_filename this' in
  w' = with_files (files w') w
  /\ is_Some (files w' !! fn)
  /\ files w' !! (fn ++ ".bak")
     = match files w !! fn with
       | Some old => Some old
       | None => files w !! (fn ++ ".bak")
       end
  /\ forall other, other <> fn -> other <> fn ++ ".bak" ->
       files w' !! other = files w !! other.
Proof.
  intros Hstate H fn. destruct (save_up_true _ _ _ _ _ Hstate H) as [_ ->].
  fold fn. unfold after_write. cbn [files with_files].
  split; [destruct w; reflexivity|].
  split; [rewrite lookup_insert_eq; eauto|].
  pose proof (backup_name_differs fn) as Hbak.
  split.
  - rewrite lookup_insert_ne by congruence.
    destruct (files w !! fn); [apply lookup_insert_eq|reflexivity].
  - intros other H1 H2. rewrite lookup_insert_ne by congruence.
    destruct (files w !! fn); [rewrite lookup_insert_ne by congruence|];
      reflexivity.
Qed.

Lemma save_up_backs_up_witness :
  let w := sample_world record_a_b_c in
  let this := with_filename "/flags/a_b_c.flag" sample_flag in
  exists w',
    save this 0%nat w = Ret (true, this) w'
    /\ files w' !! ("/flags/a_b_c.flag" ++ ".bak") = files w !! "/flags/a_b_c.flag".
Proof.
  intros w this. eexists. split; [vm_compute; reflexivity|].
  refine (proj1 (proj2 (proj2 (save_up_backs_up this 0%nat w this _ _ _)))).
  - reflexivity.
  - vm_compute. reflexivity.
Defined.

(** X14.  The record that a raise writes has every one of the fifteen
    parameters of a flag, and keeps, with its value, every other parameter
    that the record on disk had. *)
Theorem save_up_keeps_other_parameters (this : flag) (fuel : nat) (w : world)
    (this' : flag) (w' : world) :
  get_state this = STATE_UP ->
  save this fuel w = Ret (true, this') w' ->
  (forall key, key ∈ record_keys ->
     is_Some (stored_field w' (f_filename this') key))
  /\ (forall key, key ∉ record_keys ->
        stored_field w' (f_filename this') key
        = stored_field w (f_filename this') key).
Proof.
  intros Hstate H. destruct (save_up_true _ _ _ _ _ Hstate H) as [_ ->].
  unfold after_write. split; intros key Hkey; rewrite stored_field_after_write.
  - apply written_known. exact Hkey.
  - rewrite (written_foreign _ _ _ _ Hkey). unfold stored_field.
    destruct (files w !! f_filename this'); reflexivity.
Qed.

Lemma save_up_keeps_other_parameters_witness :
  let w := sample_world {[ "/flags/a_b_c.flag" :=
                             sample_record "a" "b" "c" "m" [("owner", "ops")] ]} in
  let this := with_filename "/flags/a_b_c.flag" sample_flag in
  exists w',
    save this 0%nat w = Ret (true, this) w'
    /\ stored_field w' "/flags/a_b_c.flag" "owner" = Some "ops".
Proof.
  intros w this. eexists. split; [vm_compute; reflexivity|].
  refine (eq_trans
    (proj2 (save_up_keeps_other_parameters this 0%nat w this _ _ _) "owner" _) _).
  - reflexivity.
  - vm_compute. reflexivity.
  - unfold record_keys. rewrite !not_elem_of_cons.
    repeat (split; [discriminate|]). apply not_elem_of_nil.
  - vm_compute. reflexivity.
Defined.



(** ** Raising a flag again and again *)

Lemma last_of_cons {A : Type} (a d : A) (l : list A) :
  List.last (a :: l) d = List.last l a.
Proof.
  revert a d. induction l as [|b l IH]; intros a d; [reflexivity|].
  change (List.last (a :: b :: l) d) with (List.last (b :: l) d).
  rewrite !IH. reflexivity.
Qed.

Lemma last_of_map {A B : Type} (f : A -> B) (l : list A) (d : A) :
  List.last (map f l) (f d) = f (List.last l d).
Proof.
  revert d. induction l as [|a l IH]; intros d; [reflexivity|].
  cbn [map]. rewrite !last_of_cons. apply IH.
Qed.

Lemma save_at_times_counts this fuel fn times :
  f_state this = STATE_UP ->
  f_filename this = fn -> fn <> "" ->
  forall w d m n,
    fn ∉ refused w ->
    stored_field w fn "date" = Some d ->
    stored_field w fn "modified" = Some m ->
    stored_field w fn "count" = Some (to_string n) ->
    0 <= n -> n + Z.of_nat (length times) <= LONG_MAX ->
    exists w',
      save_at_times this times fuel w = Ret this w'
      /\ stored_field w' fn "date" = Some d
      /\ stored_field w' fn "modified" = Some (List.last (map to_string times) m)
      /\ stored_field w' fn "count"
         = Some (to_string (n + Z.of_nat (length times))).
Proof.
  intros Hstate Hname Hfn.
  induction times as [|t times IH]; intros w d m n Hfree Hd Hm Hc Hn Hmax.
  - exists w. cbn [length Z.of_nat]. rewrite Z.add_0_r. repeat split; assumption.
  - cbn [length] in Hmax. rewrite Nat2Z.inj_succ in Hmax.
    assert (Hget : get_filename this fuel (with_clock t w)
                   = Ret (fn, this) (with_clock t w)).
    { rewrite <- Hname. apply get_filename_memoized. rewrite Hname. exact Hfn. }
    assert (Hstol : stol (to_string n) = Ok n).
    { apply stol_to_string. unfold LONG_MIN, LONG_MAX in *. lia. }
    destruct (save_up_record this fuel (with_clock t w) fn this Hstate Hget Hfree)
      as (w1 & Hsave & Hrefused & Hd1 & Hm1 & Hc1 & _).
    { intros text Htext. change (stored_field (with_clock t w) fn "count")
        with (stored_field w fn "count") in Htext.
      rewrite Hc in Htext. injection Htext as <-.
      exists n. split; [exact Hstol|lia]. }
    change (stored_field (with_clock t w) fn "date")
      with (stored_field w fn "date") in Hd1.
    rewrite Hd in Hd1. cbn [default from_option id] in Hd1.
    specialize (Hc1 _ _ Hc Hstol).
    destruct (IH w1 d (to_string t) (n + 1)) as (w' & Hrun & Hd' & Hm' & Hc');
      try assumption; try lia.
    { rewrite Hrefused. exact Hfree. }
    exists w'. split.
    { cbn [save_at_times]. unfold bind at 1. unfold modify.
      rewrite (bind_of_ret _ _ _ _ _ _ Hsave). exact Hrun. }
    split; [exact Hd'|]. split.
    + rewrite Hm'. cbn [map]. rewrite last_of_cons. reflexivity.
    + rewrite Hc'. cbn [length]. rewrite Nat2Z.inj_succ. f_equal. f_equal. lia.
Qed.

(** X16.  Raising a flag that has no record yet, once at each of the times
    [first], [later_1], ..., [later_n], leaves a record whose date is the
    first of these times, whose [modified] is the last of them and whose
    count is the number of saves; the count is read back from its decimal
    text at every save.  The statement is for a flag whose file name is
    memoized and whose file the system does not refuse. *)
Theorem repeated_saves_are_counted (this : flag) (fuel : nat) (w : world)
    (first : Z) (later : list Z) :
  get_state this = STATE_UP ->
  f_filename this <> "" ->
  f_filename this ∉ refused w ->
  files w !! f_filename this = None ->
  Z.of_nat (length later) < LONG_MAX ->
  exists w',
    save_at_times this (first :: later) fuel w = Ret this w'
    /\ stored_field w' (f_filename this) "date" = Some (to_string first)
    /\ stored_field w' (f_filename this) "modified"
       = Some (to_string (List.last later first))
    /\ stored_field w' (f_filename this) "count"
       = Some (to_string (Z.of_nat (length (first :: later)))).
Proof.
  unfold get_state. intros Hstate Hfn Hfree Hnew Hmax.
  set (fn := f_filename this) in *.
  assert (Hget : get_filename this fuel (with_clock first w)
                 = Ret (fn, this) (with_clock first w)).
  { apply get_filename_memoized. exact Hfn. }
  assert (Hnone : forall field,
            stored_field (with_clock first w) fn field = None).
  { intros field. unfold stored_field. cbn [files with_clock].
    rewrite Hnew. reflexivity. }
  destruct (save_up_record this fuel (with_clock first w) fn this Hstate Hget Hfree)
    as (w1 & Hsave & Hrefused & Hd1 & Hm1 & _ & Hc1).
  { intros text Htext. rewrite Hnone in Htext. discriminate. }
  rewrite Hnone in Hd1. cbn [default from_option id clock with_clock] in Hd1, Hm1.
  specialize (Hc1 (Hnone _)).
  destruct (save_at_times_counts this fuel fn later Hstate eq_refl Hfn
              w1 (to_string first) (to_string first) 1)
    as (w' & Hrun & Hd' & Hm' & Hc'); try assumption; try lia.
  { rewrite Hrefused. exact Hfree. }
  exists w'. split.
  { cbn [save_at_times]. unfold bind at 1. unfold modify.
    rewrite (bind_of_ret _ _ _ _ _ _ Hsave). exact Hrun. }
  split; [exact Hd'|]. split.
  - rewrite Hm'. f_equal. apply last_of_map.
  - rewrite Hc'. cbn [length]. rewrite Nat2Z.inj_succ. f_equal. f_equal. lia.
Qed.

Lemma repeated_saves_are_counted_witness :
  let this := with_filename sample_flag_file sample_flag in
  exists w',
    save_at_times this [100; 200; 300] 0%nat (sample_world ∅) = Ret this w'
    /\ stored_field w' sample_flag_file "date" = Some "100"
    /\ stored_field w' sample_flag_file "modified" = Some "300"
    /\ stored_field w' sample_flag_file "count" = Some "3".
Proof.
  intros this.
  apply (repeated_saves_are_counted this 0%nat (sample_world ∅) 100 [200; 300]).
  - reflexivity.
  - discriminate.
  - apply not_elem_of_empty.
  - reflexivity.
  - reflexivity.
Defined.

(** ** What a saved flag looks like when it is loaded *)

Lemma loaded_number_of_text (text : string) (narrow : Z -> Z) (initial got n : Z) :
  loaded_number (Some text) narrow initial got -> stol text = Ok n -> got = narrow n.
Proof.
  cbn [loaded_number]. intros (m & Hm & ->) Hn. congruence.
Qed.

(** X17.  The flag loaded from a record that [save] has just written has
    the source file, function and line of the saved object, the file name
    under which it was saved, and the stamps of the record: [modified] is
    the time of the save, the date is the one the record had before, or
    the time of the save when it had none, and the count is one more than
    the count the record had, or 1.  The statement is for a line that fits
    an [int] and a clock that fits a [long]. *)
Theorem saved_flag_loads_with_its_stamps (this : flag) (fuel : nat) (w : world)
    (this' : flag) (w1 : world) (g : flag) (w2 : world) :
  get_state this = STATE_UP ->
  save this fuel w = Ret (true, this') w1 ->
  flag_from_file (f_filename this') fuel w1 = Ret g w2 ->
  INT_MIN <= get_line this <= INT_MAX ->
  LONG_MIN <= clock w <= LONG_MAX ->
  let fn := f_filename this' in
  f_filename g = fn
  /\ get_source_file g = get_source_file this
  /\ get_function g = get_function this
  /\ get_line g = get_line this
  /\ get_modified g = clock w
  /\ loaded_number (stored_field w fn "date") id (clock w) (get_date g)
  /\ match stored_field w fn "count" with
     | Some text => exists n, stol text = Ok n /\ get_count g = wrap32 (wrap64 (n + 1))
     | None => get_count g = 1
     end.
Proof.
  intros Hstate Hsave Hload Hline Hclock fn.
  destruct (save_up_true _ _ _ _ _ Hstate Hsave) as [Hfn ->]. fold fn in Hload, Hfn.
  destruct (save_ret_object _ _ _ _ _ _ Hsave) as [Hobj _]. fold fn in Hobj.
  pose proof (flag_from_file_ret _ _ _ _ _ Hload)
    as (_ & _ & Hname & _ & _ & _ & _ & _ & Hsrc & Hfun & _ & _ & _
        & Hln & _ & Hcount & Hdate & Hmod & _).
  unfold after_write in Hsrc, Hfun, Hln, Hcount, Hdate, Hmod.
  rewrite stored_field_after_write in Hsrc, Hfun, Hln, Hcount, Hdate, Hmod.
  rewrite written_source_file in Hsrc. rewrite written_function in Hfun.
  rewrite written_line in Hln. rewrite written_count in Hcount.
  rewrite written_date in Hdate. rewrite written_modified in Hmod.
  rewrite !old_lookup in *.
  assert (Hsame : forall {A} (proj : flag -> A),
            (forall v f, proj (with_filename v f) = proj f) -> proj this' = proj this).
  { intros A proj H. rewrite Hobj. apply H. }
  unfold get_source_file, get_function, get_line in *.
  split; [exact Hname|].
  split; [rewrite Hsrc; exact (Hsame _ f_source_file (fun _ _ => eq_refl))|].
  split; [rewrite Hfun; exact (Hsame _ f_function (fun _ _ => eq_refl))|].
  split.
  { rewrite (Hsame _ f_line (fun _ _ => eq_refl)) in Hln.
    rewrite (loaded_number_of_text _ _ _ _ _ Hln
               (stol_to_string _ (int_in_long _ Hline))).
    apply wrap32_in_range. exact Hline. }
  split.
  { exact (loaded_number_of_text _ _ _ _ _ Hmod (stol_to_string _ Hclock)). }
  split.
  { destruct (stored_field w fn "date") as [text|];
      cbn [default from_option id] in Hdate; [exact Hdate|].
    exact (loaded_number_of_text _ _ _ _ _ Hdate (stol_to_string _ Hclock)). }
  destruct (stored_field w fn "count") as [text|] eqn:Hold.
  - destruct (stol text) as [n|e] eqn:Hn.
    + exists n. split; [reflexivity|].
      exact (loaded_number_of_text _ _ _ _ _ Hcount
               (stol_to_string _ (wrap64_range _))).
    + exfalso.
      destruct (save_outcomes this fuel w)
        as [(fn0 & t & Hget & _ & Ht)|Hoof]; [|rewrite Hoof in Hsave; discriminate].
      assert (fn0 = fn).
      { pose proof (save_up_cases _ _ _ _ _ Hstate Hget) as Hc.
        rewrite Hsave in Hc.
        destruct (match stored_field w fn0 "count" with
                  | Some text0 => match stol text0 with
                                  | Ok _ => None
                                  | Throw e0 => Some e0
                                  end
                  | None => None
                  end); [discriminate|].
        destruct (bool_decide (fn0 ∈ refused w)); [discriminate|].
        injection Hc as -> _. unfold fn. rewrite Ht. reflexivity. }
      subst fn0. pose proof (save_up_cases _ _ _ _ _ Hstate Hget) as Hc.
      rewrite Hold, Hn, Hsave in Hc. discriminate.
  - exact (loaded_number_of_text _ _ _ _ _ Hcount eq_refl).
Qed.

Lemma saved_flag_loads_with_its_stamps_witness :
  let this := with_filename "/flags/a_b_c.flag" sample_flag in
  exists w1 g,
    save this 0%nat (sample_world record_a_b_c) = Ret (true, this) w1
    /\ flag_from_file "/flags/a_b_c.flag" 0%nat w1 = Ret g w1
    /\ get_modified g = 1700000000.
Proof.
  intros this. eexists _, _. split; [vm_compute; reflexivity|].
  split; [vm_compute; reflexivity|].
  refine (proj1 (proj2 (proj2 (proj2 (proj2
    (saved_flag_loads_with_its_stamps this 0%nat (sample_world record_a_b_c)
       this _ _ _ _ _ _ _ _)))))).
  - reflexivity.
  - vm_compute. reflexivity.
  - vm_compute. reflexivity.
  - vm_compute. split; discriminate.
  - vm_compute. split; discriminate.
Defined.

(** ** [load_flags], read backwards *)

Lemma get_path_to_flag_files_cases fuel w :
  (g_path_to_flag_files w = "" /\ get_path_to_flag_files fuel w = OutOfFuel)
  \/ (g_path_to_flag_files w <> ""
      /\ get_path_to_flag_files fuel w = Ret (g_path_to_flag_files w) w).
Proof.
  destruct (string_dec (g_path_to_flag_files w) "") as [E|E].
  - left. split; [exact E|]. apply get_path_to_flag_files_empty. exact E.
  - right. split; [exact E|]. apply get_path_to_flag_files_cached. exact E.
Qed.

(** Every way out of the loop of [load_flags]. *)
Lemma load_flags_loop_cases path fuel w :
  forall filenames result,
    match load_flags_loop path filenames result fuel w with
    | Ret out w' =>
        w' = w
        /\ exists loaded,
             Forall2 (loads fuel w)
               (take (FLAGS_LIMIT - length result) filenames) loaded
             /\ out = (result ++ loaded
                       ++ if (FLAGS_LIMIT - length result <? length filenames)%nat
                          then [too_many_flags path (source_position w)]
                          else [])%list
    | Raise e w' =>
        w' = w
        /\ exists before bad after loaded,
             filenames = (before ++ bad :: after)%list
             /\ (length result + length before < FLAGS_LIMIT)%nat
             /\ Forall2 (loads fuel w) before loaded
             /\ flag_from_file bad fuel w = Raise e w
    | OutOfFuel => False
    end.
Proof.
  induction filenames as [|filename rest IH]; intros result.
  - cbn [load_flags_loop]. unfold ret. split; [reflexivity|].
    exists []. rewrite take_nil. split; [constructor|].
    unfold Nat.ltb. cbn [length Nat.leb]. rewrite !app_nil_r. reflexivity.
  - destruct (Nat.leb_spec FLAGS_LIMIT (length result)) as [Hge|Hlt].
    + rewrite (load_flags_loop_full _ _ _ _ _ _ Hge).
      split; [reflexivity|]. exists [].
      replace (FLAGS_LIMIT - length result)%nat with 0%nat by lia.
      split; [constructor|]. reflexivity.
    + cbn [load_flags_loop].
      destruct (Nat.leb_spec FLAGS_LIMIT (length result)) as [Hge|_]; [lia|].
      unfold bind at 1.
      pose proof (flag_from_file_ret filename fuel w) as Hret.
      pose proof (flag_from_file_not_ret filename fuel w) as [Hfuel Hraise].
      destruct (flag_from_file filename fuel w) as [f w1|e w1|] eqn:Hload.
      * destruct (Hret _ _ eq_refl) as [-> _]. clear Hret Hraise Hfuel.
        specialize (IH (result ++ [f])%list).
        rewrite length_app in IH. cbn [length] in IH.
        destruct (load_flags_loop path rest (result ++ [f]) fuel w)
          as [out w'|e w'|]; [| |exact IH].
        -- destruct IH as [-> (loaded & Hall & ->)]. split; [reflexivity|].
           exists (f :: loaded).
           replace (FLAGS_LIMIT - length result)%nat
             with (S (FLAGS_LIMIT - (length result + 1)))%nat by lia.
           cbn [take]. split; [constructor; assumption|].
           rewrite <- app_assoc. cbn [app length]. reflexivity.
        -- destruct IH as [-> (before & bad & after & loaded & -> & Hlen & Hall & Hbad)].
           split; [reflexivity|].
           exists (filename :: before), bad, after, (f :: loaded).
           split; [reflexivity|]. cbn [length].
           split; [lia|]. split; [constructor; assumption|exact Hbad].
      * destruct (Hraise _ _ eq_refl) as [-> _]. split; [reflexivity|].
        exists [], filename, rest, []. cbn [length app].
        split; [reflexivity|]. split; [lia|]. split; [constructor|exact Hload].
      * exact (Hfuel eq_refl).
Qed.





(** X20.  The directory lookup does one thing only: it hands back the
    static when the static holds a path, leaving the process as it is; it
    never throws, never logs and never reads the configuration or the
    disk.  With an empty static it does not return, and then neither does
    [load_flags]; with a path in the static [load_flags] always comes back,
    with a list or with an exception. *)
Theorem path_lookup_only_reads_the_static (fuel : nat) (w : world) :
  (forall path w',
     get_path_to_flag_files fuel w = Ret path w'
     <-> g_path_to_flag_files w <> "" /\ path = g_path_to_flag_files w /\ w' = w)
  /\ (forall e w', get_path_to_flag_files fuel w <> Raise e w')
  /\ (get_path_to_flag_files fuel w = OutOfFuel <-> g_path_to_flag_files w = "")
  /\ (load_flags fuel w = OutOfFuel <-> g_path_to_flag_files w = "").
Proof.
  split; [|split; [|split]].
  - intros path w'. split.
    + intros H. apply get_path_to_flag_files_ret in H as (-> & -> & H). auto.
    + intros (Hw & -> & ->). apply get_path_to_flag_files_cached. exact Hw.
  - intros e w'. apply get_path_to_flag_files_no_raise.
  - destruct (get_path_to_flag_files_cases fuel w) as [[Hw Hp]|[Hw Hp]];
      rewrite Hp; split; intros H; try reflexivity; try assumption;
      try discriminate; contradiction.
  - destruct (get_path_to_flag_files_cases fuel w) as [[Hw Hp]|[Hw Hp]].
    + split; [intros _; exact Hw|intros _].
      unfold load_flags. apply bind_of_out_of_fuel. exact Hp.
    + split; [|intros H; contradiction]. intros H. exfalso.
      rewrite (load_flags_unfold _ _ Hw) in H.
      pose proof (load_flags_loop_cases (g_path_to_flag_files w) fuel w
                    (filter (fun name =>
                       glob_match (g_path_to_flag_files w ++ "/*.flag") true name = true)
                       (set_in_order (dom (files w) ∪ directories w))) []) as Hloop.
      unfold read_path, gets in H. rewrite H in Hloop. exact Hloop.
Qed.

(** ** The message cache *)

Lemma logged_refl (w : world) : logged w w.
Proof. exists []. rewrite app_nil_r. destruct w; reflexivity. Qed.

Lemma logged_line (w : world) (line : string) :
  logged w (with_log (log w ++ [line])%list w).
Proof. exists [line]. reflexivity. Qed.

Lemma logged_trans (w1 w2 w3 : world) : logged w1 w2 -> logged w2 w3 -> logged w1 w3.
Proof.
  intros [l1 ->] [l2 ->]. exists (l1 ++ l2)%list.
  cbn [log with_log]. rewrite app_assoc. reflexivity.
Qed.

Lemma logged_clock (w w' : world) : logged w w' -> clock w' = clock w.
Proof. intros [l ->]. reflexivity. Qed.

Lemma cache_parameter_returns p params fuel w :
  exists params' w', Cache.cache_parameter p params fuel w = Ret params' w'
                     /\ logged w w'.
Proof.
  unfold Cache.cache_parameter.
  destruct (Cache.string_find "=" p) as [[|pos]|].
  - eexists _, _. split; [reflexivity|]. apply logged_line.
  - eexists _, _. split; [reflexivity|]. apply logged_refl.
  - eexists _, _. split; [reflexivity|]. apply logged_refl.
Qed.

Lemma cache_parameters_loop_returns cache_parameters :
  forall params fuel w,
  exists params' w',
    Cache.cache_parameters_loop cache_parameters params fuel w = Ret params' w'
    /\ logged w w'.
Proof.
  induction cache_parameters as [|p rest IH]; intros params fuel w.
  - exists params, w. split; [reflexivity|apply logged_refl].
  - destruct (cache_parameter_returns p params fuel w) as (params1 & w1 & H1 & L1).
    destruct (IH params1 fuel w1) as (params2 & w2 & H2 & L2).
    exists params2, w2. split; [|exact (logged_trans _ _ _ L1 L2)].
    cbn [Cache.cache_parameters_loop]. rewrite (bind_of_ret _ _ _ _ _ _ H1).
    exact H2.
Qed.

(** The range test of the time to live compares the constant 60: the
    branch that rejects a value is never taken. *)
Lemma cache_ttl_returns convert_string params fuel w :
  exists ttl w',
    Cache.cache_ttl convert_string params fuel w = Ret ttl w'
    /\ logged w w'
    /\ ttl = match params !! "ttl" with
             | Some text => default 60 (convert_string text)
             | None => 60
             end
    /\ ((forall text, params !! "ttl" = Some text -> is_Some (convert_string text))
        -> w' = w).
Proof.
  unfold Cache.cache_ttl. cbv zeta.
  destruct (params !! "ttl") as [text|].
  - destruct (convert_string text) as [value|] eqn:Hconv.
    + exists value, w. cbn [Z.ltb Z.compare orb].
      split; [reflexivity|]. split; [apply logged_refl|]. auto.
    + eexists 60, _. split; [reflexivity|]. split; [apply logged_line|].
      split; [reflexivity|]. intros H. destruct (H text eq_refl) as [v Hv].
      rewrite Hconv in Hv. discriminate.
  - exists 60, w. split; [reflexivity|]. split; [apply logged_refl|]. auto.
Qed.

Lemma cache_value_of msg :
  (if Cache.msg_has_parameter msg "cache" then Cache.msg_get_parameter msg "cache"
   else "")
  = default "" (Cache.msg_parameters msg !! "cache").
Proof.
  unfold Cache.msg_has_parameter, Cache.msg_get_parameter.
  destruct (Cache.msg_parameters msg !! "cache"); reflexivity.
Qed.

(** X21.  [cache_message] always returns, and to the cache it does one of
    two things: nothing, when the [cache] parameter of the message is
    [no]; otherwise it adds one entry at the end, which holds the message
    as given and times out at the current time plus a time to live that is
    60 or a number read by [convert_string].  The entries already cached
    keep their place, and the process changes by lines added to the log at
    most (none when the parameter is [no]). *)
Theorem cache_message_adds_one_entry (convert_string : string -> option Z)
    (msg : Cache.message) (f_message_cache : list Cache.message_cache)
    (fuel : nat) (w : world) :
  exists out w',
    Cache.cache_message convert_string msg f_message_cache fuel w = Ret out w'
    /\ logged w w'
    /\ (Cache.msg_parameters msg !! "cache" = Some "no" ->
        out = f_message_cache /\ w' = w)
    /\ (Cache.msg_parameters msg !! "cache" <> Some "no" ->
        exists ttl,
          out = (f_message_cache
                 ++ [Cache.mk_message_cache (wrap64 (clock w + ttl)) msg])%list
          /\ (ttl = 60 \/ exists text, convert_string text = Some ttl)).
Proof.
  unfold Cache.cache_message. cbv zeta. rewrite cache_value_of.
  destruct (String.eqb_spec (default "" (Cache.msg_parameters msg !! "cache")) "no")
    as [Hno|Hno].
  - exists f_message_cache, w. split; [reflexivity|]. split; [apply logged_refl|].
    split; [auto|]. intros H. exfalso. apply H.
    destruct (Cache.msg_parameters msg !! "cache"); [|discriminate].
    cbn [default from_option id] in Hno. congruence.
  - destruct (cache_parameters_loop_returns
                (tokenize_string (default "" (Cache.msg_parameters msg !! "cache"))
                   ";" true "") ∅ fuel w) as (params & w1 & Hloop & L1).
    destruct (cache_ttl_returns convert_string params fuel w1)
      as (ttl & w2 & Httl & L2 & Hvalue & _).
    eexists _, w2. split.
    { rewrite (bind_of_ret _ _ _ _ _ _ Hloop), (bind_of_ret _ _ _ _ _ _ Httl).
      reflexivity. }
    split; [exact (logged_trans _ _ _ L1 L2)|]. split.
    { intros H. rewrite H in Hno. contradiction. }
    intros _. exists ttl. cbn [clock].
    rewrite (logged_clock _ _ L2), (logged_clock _ _ L1).
    split; [reflexivity|]. rewrite Hvalue.
    destruct (params !! "ttl") as [text|]; [|left; reflexivity].
    destruct (convert_string text) as [value|] eqn:Hconv; [|left; reflexivity].
    right. exists text. exact Hconv.
Qed.

Lemma split_tokens_whole (delimiters s : string) :
  all_chars (fun c => negb (in_chars c delimiters)) s = true ->
  split_tokens delimiters s = [s].
Proof.
  induction s as [|c r IH]; [reflexivity|]. cbn [all_chars split_tokens].
  intros H. apply andb_true_iff in H as [Hc Hr].
  apply negb_true_iff in Hc. rewrite Hc, (IH Hr). reflexivity.
Qed.

Lemma trim_left_nothing (s : string) : trim_left "" s = s.
Proof. destruct s; reflexivity. Qed.

Lemma trim_right_nothing (s : string) : trim_right "" s = s.
Proof.
  induction s as [|c r IH]; [reflexivity|]. cbn [trim_right in_chars].
  rewrite IH, andb_false_r. reflexivity.
Qed.

(** X22.  The time to live that a message asks for is used as it is read:
    with [cache] set to [ttl=<text>], the entry times out at the current
    time plus the number that [convert_string] reads in the text, whatever
    that number is, below 10, above 86400 or negative, and no line is
    logged.  The test that should refuse such a value reads the default,
    60, and not the value. *)
Theorem cache_ttl_is_not_range_checked (convert_string : string -> option Z)
    (msg : Cache.message) (f_message_cache : list Cache.message_cache)
    (fuel : nat) (w : world) (text : string) (value : Z) :
  Cache.msg_parameters msg !! "cache" = Some ("ttl=" ++ text) ->
  all_chars (fun c => negb (in_chars c ";")) text = true ->
  convert_string text = Some value ->
  Cache.cache_message convert_string msg f_message_cache fuel w
  = Ret (f_message_cache
         ++ [Cache.mk_message_cache (wrap64 (clock w + value)) msg])%list w.
Proof.
  intros Hcache Htext Hconv.
  unfold Cache.cache_message. cbv zeta. rewrite cache_value_of, Hcache.
  cbn [default from_option id]. norm_append.
  cbn [String.eqb Ascii.eqb Bool.eqb].
  unfold tokenize_string.
  rewrite split_tokens_whole
    by (cbn [all_chars in_chars Ascii.eqb Bool.eqb orb negb andb]; exact Htext).
  cbn [map]. rewrite trim_left_nothing, trim_right_nothing.
  rewrite filter_cons_True by reflexivity. rewrite filter_nil.
  cbn [Cache.cache_parameters_loop]. unfold Cache.cache_parameter.
  cbn [Cache.string_find Ascii.eqb Bool.eqb Cache.string_take Cache.string_drop
       Nat.add].
  unfold bind at 1 2. unfold ret at 1 2.
  unfold bind at 1. unfold Cache.cache_ttl. cbv zeta.
  rewrite lookup_insert_eq, Hconv. cbn [Z.ltb Z.compare orb].
  reflexivity.
Qed.

Lemma cache_ttl_is_not_range_checked_witness :
  let msg := Cache.mk_message "PING" {[ "cache" := "ttl=5" ]} in
  Cache.cache_message (fun _ => Some 5) msg [] 0%nat (sample_world ∅)
  = Ret [Cache.mk_message_cache 1700000005 msg] (sample_world ∅).
Proof.
  intros msg.
  apply (cache_ttl_is_not_range_checked (fun _ => Some 5) msg [] 0%nat
           (sample_world ∅) "5" 5); reflexivity.
Defined.

(** ** Sweeping the cache *)

Lemma remove_old_loop_filter now f_message_cache :
  Cache.remove_old_loop now f_message_cache
  = List.filter (fun it => now <=? Cache.f_timeout_timestamp it) f_message_cache.
Proof.
  induction f_message_cache as [|it rest IH]; [reflexivity|].
  cbn [Cache.remove_old_loop List.filter]. rewrite IH, Z.leb_antisym.
  destruct (Cache.f_timeout_timestamp it <? now); reflexivity.
Qed.

Lemma remove_old_loop_later now later f_message_cache :
  now <= later ->
  Cache.remove_old_loop later (Cache.remove_old_loop now f_message_cache)
  = Cache.remove_old_loop later f_message_cache.
Proof.
  intros Hle. induction f_message_cache as [|it rest IH]; [reflexivity|].
  cbn [Cache.remove_old_loop].
  destruct (Z.ltb_spec (Cache.f_timeout_timestamp it) now) as [Hold|Hlive].
  - rewrite IH.
    destruct (Z.ltb_spec (Cache.f_timeout_timestamp it) later); [reflexivity|lia].
  - cbn [Cache.remove_old_loop]. rewrite IH. reflexivity.
Qed.

(** X23.  [remove_old_messages] returns, changes nothing in the process,
    and keeps, in their order, exactly the entries whose time has not
    passed: an entry that times out at the current second stays.  Sweeping
    again at that time or later gives what one sweep at the later time
    gives. *)
Theorem remove_old_messages_keeps_the_live_entries
    (f_message_cache : list Cache.message_cache) (fuel : nat) (w : world) :
  exists out,
    Cache.remove_old_messages f_message_cache fuel w = Ret out w
    /\ sublist out f_message_cache
    /\ (forall it, it ∈ out
                   <-> it ∈ f_message_cache /\ clock w <= Cache.f_timeout_timestamp it)
    /\ forall later fuel',
         clock w <= later ->
         Cache.remove_old_messages out fuel' (with_clock later w)
         = Cache.remove_old_messages f_message_cache fuel' (with_clock later w).
Proof.
  exists (Cache.remove_old_loop (clock w) f_message_cache).
  split; [reflexivity|]. split; [|split].
  - induction f_message_cache as [|it rest IH]; [constructor|].
    cbn [Cache.remove_old_loop].
    destruct (Cache.f_timeout_timestamp it <? clock w);
      [apply sublist_cons|apply sublist_skip]; exact IH.
  - intros it. rewrite remove_old_loop_filter, !list_elem_of_In, filter_In, Z.leb_le.
    reflexivity.
  - intros later fuel' Hle. unfold Cache.remove_old_messages, bind, time, gets, ret.
    cbn [clock with_clock]. rewrite (remove_old_loop_later _ _ _ Hle). reflexivity.
Qed.

Lemma process_loop_state {S : Type}
    (callback : Cache.message -> S -> bool * Cache.message * S) now f_message_cache :
  forall s,
    snd (Cache.process_loop callback now f_message_cache s)
    = fold_left (fun s it => snd (callback (Cache.f_message it) s)) f_message_cache s.
Proof.
  induction f_message_cache as [|it rest IH]; intros s; [reflexivity|].
  cbn [Cache.process_loop fold_left].
  destruct (callback (Cache.f_message it) s) as [[done msg] s1]. cbn [snd].
  rewrite <- IH.
  destruct (Cache.process_loop callback now rest s1) as [rest' s2].
  destruct (done || (Cache.f_timeout_timestamp it <? now)); reflexivity.
Qed.

Lemma process_loop_kept {S : Type}
    (callback : Cache.message -> S -> bool * Cache.message * S) now f_message_cache :
  forall s,
    sublist (map Cache.f_timeout_timestamp
               (fst (Cache.process_loop callback now f_message_cache s)))
            (map Cache.f_timeout_timestamp f_message_cache)
    /\ Forall (fun it => now <= Cache.f_timeout_timestamp it)
              (fst (Cache.process_loop callback now f_message_cache s)).
Proof.
  induction f_message_cache as [|it rest IH]; intros s.
  - split; constructor.
  - cbn [Cache.process_loop map].
    destruct (callback (Cache.f_message it) s) as [[done msg] s1].
    destruct (IH s1) as [Hsub Hall].
    destruct (Cache.process_loop callback now rest s1) as [rest' s2].
    cbn [fst] in *.
    destruct done; cbn [orb fst]; [split; [apply sublist_cons; exact Hsub|exact Hall]|].
    destruct (Z.ltb_spec (Cache.f_timeout_timestamp it) now) as [Hold|Hlive];
      cbn [fst map].
    + split; [apply sublist_cons; exact Hsub|exact Hall].
    + split; [apply sublist_skip; exact Hsub|].
      constructor; [exact Hlive|exact Hall].
Qed.

(** X24.  [process_messages] hands every entry of the cache to the
    callback, once and in order, whether its time has passed or not: what
    the callback has seen at the end does not depend on the clock.  It
    returns, changes nothing in the process, drops entries only, and every
    entry it keeps is one whose time has not passed. *)
Theorem process_messages_visits_every_entry {S : Type}
    (callback : Cache.message -> S -> bool * Cache.message * S)
    (f_message_cache : list Cache.message_cache) (s : S) (fuel : nat) (w : world) :
  exists out s',
    Cache.process_messages callback f_message_cache s fuel w = Ret (out, s') w
    /\ s' = fold_left (fun s it => snd (callback (Cache.f_message it) s))
              f_message_cache s
    /\ sublist (map Cache.f_timeout_timestamp out)
               (map Cache.f_timeout_timestamp f_message_cache)
    /\ Forall (fun it => clock w <= Cache.f_timeout_timestamp it) out.
Proof.
  exists (fst (Cache.process_loop callback (clock w) f_message_cache s)),
         (snd (Cache.process_loop callback (clock w) f_message_cache s)).
  split.
  { unfold Cache.process_messages, bind, time, gets, ret.
    destruct (Cache.process_loop callback (clock w) f_message_cache s); reflexivity. }
  split; [apply process_loop_state|]. apply process_loop_kept.
Qed.

Lemma process_loop_filter {S : Type} (wanted : Cache.message -> bool) now
    f_message_cache (s : S) :
  Cache.process_loop (fun msg s => (wanted msg, msg, s)) now f_message_cache s
  = (List.filter (fun it => negb (wanted (Cache.f_message it))
                            && (now <=? Cache.f_timeout_timestamp it))
       f_message_cache, s).
Proof.
  induction f_message_cache as [|it rest IH]; [reflexivity|].
  cbn [Cache.process_loop List.filter]. rewrite IH, Z.leb_antisym.
  destruct (wanted (Cache.f_message it)); cbn [orb negb andb]; [reflexivity|].
  destruct (Cache.f_timeout_timestamp it <? now); cbn [negb]; [reflexivity|].
  destruct it; reflexivity.
Qed.

(** X25.  With a callback that leaves the messages as they are and answers
    from the message alone, [process_messages] keeps exactly the entries
    that the callback did not take and whose time has not passed; with a
    callback that takes nothing it does what [remove_old_messages] does. *)
Theorem process_messages_filters (wanted : Cache.message -> bool)
    (f_message_cache : list Cache.message_cache) (fuel : nat) (w : world) :
  Cache.process_messages (fun msg (s : unit) => (wanted msg, msg, s))
    f_message_cache tt fuel w
  = Ret (List.filter (fun it => negb (wanted (Cache.f_message it))
                                && (clock w <=? Cache.f_timeout_timestamp it))
           f_message_cache, tt) w
  /\ ((forall msg, wanted msg = false) ->
      exists out,
        Cache.process_messages (fun msg (s : unit) => (wanted msg, msg, s))
          f_message_cache tt fuel w = Ret (out, tt) w
        /\ Cache.remove_old_messages f_message_cache fuel w = Ret out w).
Proof.
  assert (H : Cache.process_messages (fun msg (s : unit) => (wanted msg, msg, s))
                f_message_cache tt fuel w
              = Ret (List.filter (fun it => negb (wanted (Cache.f_message it))
                                            && (clock w <=? Cache.f_timeout_timestamp it))
                       f_message_cache, tt) w).
  { unfold Cache.process_messages, bind, time, gets, ret.
    rewrite process_loop_filter. reflexivity. }
  split; [exact H|]. intros Hnone. eexists. split; [exact H|].
  unfold Cache.remove_old_messages, bind, time, gets, ret.
  rewrite remove_old_loop_filter. f_equal.
  apply filter_ext. intros it. rewrite Hnone. reflexivity.
Qed.

(** X26.  A message cached without a [cache] parameter lives 60 seconds:
    it stays in the cache through every sweep up to and including the
    60th second after it was cached, and the first sweep after that
    second drops it. *)
Theorem default_entry_lives_60_seconds (convert_string : string -> option Z)
    (msg : Cache.message) (f_message_cache : list Cache.message_cache)
    (fuel : nat) (w : world) :
  Cache.msg_parameters msg !! "cache" = None ->
  LONG_MIN <= clock w -> clock w + 60 <= LONG_MAX ->
  exists entry,
    Cache.cache_message convert_string msg f_message_cache fuel w
    = Ret (f_message_cache ++ [entry])%list w
    /\ Cache.f_message entry = msg
    /\ forall later out,
         Cache.remove_old_messages (f_message_cache ++ [entry])%list fuel
           (with_clock later w) = Ret out (with_clock later w) ->
         (later <= clock w + 60 -> exists kept, out = (kept ++ [entry])%list)
         /\ (clock w + 60 < later -> entry ∉ out).
Proof.
  intros Hnone Hmin Hmax.
  exists (Cache.mk_message_cache (clock w + 60) msg).
  split.
  { unfold Cache.cache_message. cbv zeta. rewrite cache_value_of, Hnone.
    cbn [default from_option id String.eqb]. unfold tokenize_string.
    cbn [split_tokens map trim_left trim_right].
    rewrite filter_cons_False by (cbn; discriminate). rewrite filter_nil.
    cbn [Cache.cache_parameters_loop]. unfold bind at 1, ret at 1.
    unfold bind at 1. unfold Cache.cache_ttl. cbv zeta.
    rewrite lookup_empty. unfold ret at 1. unfold bind, time, gets, ret.
    rewrite wrap64_in_range by lia. reflexivity. }
  split; [reflexivity|].
  intros later out H.
  unfold Cache.remove_old_messages, bind, time, gets, ret in H.
  cbn [clock with_clock] in H. injection H as <-.
  rewrite remove_old_loop_filter, List.filter_app. cbn [List.filter Cache.f_timeout_timestamp].
  split.
  - intros Hle. rewrite (proj2 (Z.leb_le _ _) Hle). eauto.
  - intros Hlt Hin. apply list_elem_of_In, in_app_or in Hin.
    destruct (Z.leb_spec later (clock w + 60)) as [Hle|_]; [lia|].
    destruct Hin as [Hin|[]].
    apply filter_In in Hin as [_ Hin]. cbn [Cache.f_timeout_timestamp] in Hin.
    apply Z.leb_le in Hin. lia.
Qed.

Lemma default_entry_lives_60_seconds_witness :
  let msg := Cache.mk_message "PING" ∅ in
  exists entry,
    Cache.cache_message (fun _ => None) msg [] 0%nat (sample_world ∅)
    = Ret [entry] (sample_world ∅)
    /\ Cache.f_message entry = msg.
Proof.
  intros msg.
  destruct (default_entry_lives_60_seconds (fun _ => None) msg [] 0%nat
              (sample_world ∅)) as (entry & H & Hmsg & _).
  - reflexivity.
  - unfold LONG_MIN. cbn [clock sample_world]. lia.
  - unfold LONG_MAX. cbn [clock sample_world]. lia.
  - exists entry. split; [exact H|exact Hmsg].
Defined.

(** ** From [save] to the listing of [load_flags] *)


Lemma is_slash_eqb (c : ascii) : is_slash c = Ascii.eqb c "/".
Proof. by_cases_on_byte c. Qed.













